(** * longhorn-manager: the upgrade coordinator and the CSI managed-object sets

    A shallow embedding of [upgrade/upgrade.go] and of the [Deploy]/[Cleanup]
    methods of [csi/deployment.go].  Both files are sequences of calls into
    the cluster (Kubernetes API, per-version upgraders, logging) glued
    together by Go's [if err != nil { return err }] idiom.  A Go function is
    embedded as a tree of calls ([Prog]): a node is one call that leaves the
    process, its children are indexed by what the callee answers.  Running a
    tree against an environment yields the returned value and the trace of
    calls, and the properties below are statements about that pair for every
    environment. *)

From stdpp Require Import base strings list gmap.

(** ** Go's [error] values *)

(** [metav1.StatusReason], as far as the code distinguishes reasons. *)
Inductive StatusReason : Type :=
| StatusReasonNotFound
| StatusReasonAlreadyExists
| StatusReasonOther (reason : string).

(** The dynamic values an [error] interface holds in these files: a status
    error answered by the cluster API, a plain message ([fmt.Errorf]), or a
    cause annotated by [errors.Wrap].  The nil interface is [None] of
    [option error]. *)
Inductive error : Type :=
| StatusError (reason : StatusReason) (message : string)
| errorString (s : string)
| withMessage (cause : error) (msg : string).

(** [err.Error()]: pkg/errors prints the annotation, a colon, the cause. *)
Fixpoint Error (e : error) : string :=
  match e with
  | StatusError _ message => message
  | errorString s => s
  | withMessage cause msg => msg +:+ ": " +:+ Error cause
  end.

Module errors.
(** [errors.Wrap(err, message)]: nil stays nil. *)
Definition Wrap (err : option error) (message : string) : option error :=
  match err with
  | None => None
  | Some e => Some (withMessage e message)
  end.

(** [errors.Wrapf], the format already applied to its arguments. *)
Definition Wrapf (err : option error) (message : string) : option error :=
  Wrap err message.
End errors.

Module fmt.
(** [fmt.Errorf], the format already applied to its arguments. *)
Definition Errorf (s : string) : option error := Some (errorString s).
End fmt.

Module apierrors.
(** [apierrors.ReasonForError]: the reason of the status error found by
    unwrapping annotations; unknown for any other error. *)
Fixpoint ReasonForError (e : error) : option StatusReason :=
  match e with
  | StatusError reason _ => Some reason
  | errorString _ => None
  | withMessage cause _ => ReasonForError cause
  end.

Definition IsNotFound (e : error) : bool :=
  match ReasonForError e with
  | Some StatusReasonNotFound => true
  | _ => false
  end.

Definition IsAlreadyExists (e : error) : bool :=
  match ReasonForError e with
  | Some StatusReasonAlreadyExists => true
  | _ => false
  end.
End apierrors.

(** ** Programs as trees of calls *)

Section Prog.
(** [E R] are the calls a program can make that answer in [R]. *)
Context {E : Type -> Type}.

Inductive Prog (A : Type) : Type :=
| Ret (a : A)
| Vis {R : Type} (c : E R) (k : R -> Prog A).
Global Arguments Ret {A} a.
Global Arguments Vis {A R} c k.

Fixpoint bind {A B : Type} (p : Prog A) (f : A -> Prog B) : Prog B :=
  match p with
  | Ret a => f a
  | Vis c k => Vis c (fun r => bind (k r) f)
  end.

Definition perform {R : Type} (c : E R) : Prog R := Vis c Ret.

(** One observed call together with its answer. *)
Inductive Event : Type :=
| Ev {R : Type} (c : E R) (r : R).

(** An environment answers every call, possibly depending on everything
    that happened before. *)
Definition Env : Type := forall R : Type, E R -> list Event -> R.

(** [run env p h]: the value [p] returns and the calls it made, in order,
    when the calls of [h] have already happened. *)
Fixpoint run {A : Type} (env : Env) (p : Prog A) (h : list Event)
  : A * list Event :=
  match p with
  | Ret a => (a, [])
  | Vis c k =>
      let r := env _ c h in
      let '(a, t) := run env (k r) (h ++ [Ev c r]) in
      (a, Ev c r :: t)
  end.

(** Two goroutines joined by a [sync.WaitGroup]: their calls interleave,
    and where both have a call pending the scheduler ([pick], one more
    question to the environment) decides who goes next.  The composite
    finishes when both have finished. *)
Fixpoint par (pick : E bool) (p : Prog unit) : Prog unit -> Prog unit :=
  fix par_p (q : Prog unit) : Prog unit :=
    match p, q with
    | Ret _, _ => q
    | _, Ret _ => p
    | Vis c k, Vis c' k' =>
        Vis pick (fun first =>
          if first : bool
          then Vis c (fun r => par pick (k r) q)
          else Vis c' (fun r => par_p (k' r)))
    end.

(** [wp p Q]: whatever the environment answers, the value [p] returns
    and the calls it makes satisfy [Q]. *)
Fixpoint wp {A : Type} (p : Prog A) (Q : A -> list Event -> Prop) : Prop :=
  match p with
  | Ret a => Q a []
  | Vis c k => forall r, wp (k r) (fun a t => Q a (Ev c r :: t))
  end.

(** Every call [p] can make, with any answer to it, satisfies [I]. *)
Definition always (I : Event -> Prop) {A : Type} (p : Prog A) : Prop :=
  wp p (fun _ t => Forall I t).

(** Two programs that make the same calls and return the same values. *)
Inductive eqp {A : Type} : Prog A -> Prog A -> Prop :=
| eqp_Ret (a : A) : eqp (Ret a) (Ret a)
| eqp_Vis {R : Type} (c : E R) (k k' : R -> Prog A) :
    (forall r, eqp (k r) (k' r)) -> eqp (Vis c k) (Vis c k').

(** Running a list of fallible programs one after the other until one
    returns an error: that first error, or nil when none does. *)
Fixpoint first_error (env : Env) (ps : list (Prog (option error)))
    (h : list Event) : option error :=
  match ps with
  | [] => None
  | p :: ps' =>
      match (run env p h).1 with
      | Some e => Some e
      | None => first_error env ps' (h ++ (run env p h).2)
      end
  end.

(** Every program of the list, run one after the other, returns nil. *)
Fixpoint all_completed (env : Env) (ps : list (Prog (option error)))
    (h : list Event) : Prop :=
  match ps with
  | [] => True
  | p :: ps' =>
      (run env p h).1 = None /\ all_completed env ps' (h ++ (run env p h).2)
  end.

(** [for _, x := range l { f(x) }] *)
Fixpoint for_range {A : Type} (l : list A) (f : A -> Prog unit) : Prog unit :=
  match l with
  | [] => Ret tt
  | x :: l' => bind (f x) (fun _ => for_range l' f)
  end.
End Prog.
Global Arguments Prog : clear implicits.
Global Arguments Event : clear implicits.
Global Arguments Env : clear implicits.

Declare Scope prog_scope.
Delimit Scope prog_scope with prog.
Bind Scope prog_scope with Prog.
Notation "x <- p ;; q" := (bind p (fun x => q))
  (at level 100, p at next level, right associativity) : prog_scope.
Notation "p ;; q" := (bind p (fun _ => q))
  (at level 100, right associativity) : prog_scope.
Local Open Scope prog_scope.

(** [err != nil] *)
Definition is_error (err : option error) : bool :=
  match err with
  | Some _ => true
  | None => false
  end.

(** [if err != nil { return err }]: leave with the error, or go on. *)
Definition check {E : Type -> Type} (err : option error)
    (rest : Prog E (option error)) : Prog E (option error) :=
  match err with
  | Some e => Ret (Some e)
  | None => rest
  end.

(** [defer func() { err = errors.Wrap(err, message) }()] around a body with
    the named result [err]. *)
Definition defer_Wrap {E : Type -> Type} (message : string)
    (body : Prog E (option error)) : Prog E (option error) :=
  err <- body ;; Ret (errors.Wrap err message).

(** ** Package [types]: the constants the two files read

    The package lies outside the two files, so its constants are fields of
    a class and every definition below is generic in them.  What a property
    needs to know about them is stated with the property. *)
Module types.
Class consts : Type := {
  EnvPodNamespace : string;
  SettingNameCRDAPIVersion : string;
  CRDAPIVersionV1beta1 : string;
  CRDAPIVersionV1beta2 : string;
  CurrentCRDAPIVersion : string;
}.
End types.

(** [corev1.NamespaceDefault] *)
Definition NamespaceDefault : string := "default".

(** ** Package [upgrade] *)
Module upgrade.
Definition LeaseLockName : string := "longhorn-manager-upgrade-lock".

(** [longhorn.Setting]: the object name and the value are all the code
    touches. *)
Record Setting : Type := {
  Name : string;
  Value : string;
}.

(** The per-version upgraders the chain calls, one constructor per
    function of the packages [v070to080] ... [v122to123]. *)
Inductive Upgrader : Type :=
| v070to080_UpgradeCRs
| v100to101_UpgradeCRs
| v102to110_UpgradeCRs
| v110to111_UpgradeCRs
| v110to120_UpgradeCRs
| v111to120_UpgradeCRs
| v120to121_UpgradeCRs
| v122to123_UpgradeCRs
| v100to101_UpgradeInstanceManagerPods
| v102to110_UpgradePods
| v110to111_UpgradePods
| v110to111_UpgradeServices
| v110to111_UpgradeDeploymentAndDaemonSet.

Inductive Level : Type := InfoLevel | WarnLevel | ErrorLevel.

(** [resourcelock.LeaseLock]: the lease object and the identity of the
    candidate. *)
Record LeaseLock : Type := {
  LeaseMeta_Name : string;
  LeaseMeta_Namespace : string;
  Identity : string;
}.

(** The calls of [upgrade.go] that leave the package.  Client and config
    handles carry no data the code inspects and are left out; Go's
    [(value, error)] results are pairs. *)
Inductive call : Type -> Type :=
| Getenv (key : string) : call string
| BuildConfigFromFlags (masterUrl kubeconfigPath : string) : call (option error)
| clientset_NewForConfig : call (option error)
| lhclientset_NewForConfig : call (option error)
| AddToScheme : call (option error)
| Log (level : Level) (msg : string) : call unit
| AcquireLease (lock : LeaseLock) (releaseOnCancel : bool)
    (leaseDuration renewDeadline retryPeriod : nat) : call (list string)
| cancel : call unit
| Settings_Get (namespace name : string) : call (Setting * option error)
| Settings_Create (namespace : string) (s : Setting) : call (Setting * option error)
| Settings_Update (namespace : string) (s : Setting) : call (Setting * option error)
| v1beta1_CanUpgrade (namespace : string) : call (bool * option error)
| v1beta1_UpgradeCRFromV1beta1ToV1beta2 (namespace : string) : call (option error)
| v070to080_UpgradeLocalNode : call (option error)
| Upgrade_ (u : Upgrader) (namespace : string) : call (option error).

Definition P : Type -> Type := Prog call.

Module logrus.
Definition Infof (msg : string) : P unit := perform (Log InfoLevel msg).
Definition Warnf (msg : string) : P unit := perform (Log WarnLevel msg).
Definition Errorf (msg : string) : P unit := perform (Log ErrorLevel msg).
End logrus.

(** [leaderelection.LeaderCallbacks].  The closure [OnStartedLeading]
    assigns the variable [err] of the enclosing function: it takes the
    variable's value and returns the value it leaves in it. *)
Record LeaderCallbacks : Type := {
  OnStartedLeading : option error -> P (option error);
  OnStoppedLeading : P unit;
  OnNewLeader : string -> P unit;
}.

(** [leaderelection.LeaderElectionConfig]; durations in seconds. *)
Record LeaderElectionConfig : Type := {
  Lock : LeaseLock;
  ReleaseOnCancel : bool;
  LeaseDuration : nat;
  RenewDeadline : nat;
  RetryPeriod : nat;
  Callbacks : LeaderCallbacks;
}.

(** Modelled from the spec: [leaderelection.RunOrDie], which is client-go's
    and not in this repository.  It follows the contract of the
    leader-election gate: the caller blocks until it holds the lease
    ([AcquireLease], which answers the holders observed until then),
    [OnNewLeader] is told each observed holder, [OnStartedLeading] is
    invoked once for the tenure, synchronously, and [OnStoppedLeading]
    when the tenure is over.  The last argument is the variable [err] the
    closures share with the caller. *)
Definition RunOrDie (lec : LeaderElectionConfig) (err : option error)
  : P (option error) :=
  observed <- perform (AcquireLease (Lock lec) (ReleaseOnCancel lec)
                         (LeaseDuration lec) (RenewDeadline lec)
                         (RetryPeriod lec)) ;;
  for_range observed (OnNewLeader (Callbacks lec)) ;;
  err <- OnStartedLeading (Callbacks lec) err ;;
  OnStoppedLeading (Callbacks lec) ;;
  Ret err.

Section functions.
Context `{!types.consts}.
Import types.

Definition doAPIVersionUpgrade (namespace : string) : P (option error) :=
  defer_Wrap "upgrade API version failed" (
    let crdAPIVersion := "" in
    r <- perform (Settings_Get namespace SettingNameCRDAPIVersion) ;;
    let '(crdAPIVersionSetting, err) := r in
    if is_error err &&
       negb (from_option apierrors.IsNotFound false err)
    then Ret err
    else
    let crdAPIVersion :=
      if is_error err then crdAPIVersion
      else Value crdAPIVersionSetting in
    if bool_decide (crdAPIVersion <> "") &&
       bool_decide (crdAPIVersion <> CRDAPIVersionV1beta1) &&
       bool_decide (crdAPIVersion <> CRDAPIVersionV1beta2)
    then Ret (fmt.Errorf ("unrecognized CRD API version " +:+ crdAPIVersion))
    else
    if bool_decide (crdAPIVersion = CurrentCRDAPIVersion)
    then logrus.Infof "No API version upgrade is needed" ;; Ret None
    else
    (* switch crdAPIVersion *)
    if bool_decide (crdAPIVersion = "") then
      r <- perform (v1beta1_CanUpgrade namespace) ;;
      let '(upgradable, err) := r in
      check err (
      if upgradable : bool then
        let crdAPIVersionSetting :=
          {| Name := SettingNameCRDAPIVersion;
             Value := CurrentCRDAPIVersion |} in
        r <- perform (Settings_Create namespace crdAPIVersionSetting) ;;
        let '(_, err) := r in
        if is_error err &&
           negb (from_option apierrors.IsAlreadyExists false err)
        then Ret (errors.Wrap err "cannot create CRDAPIVersionSetting")
        else
        logrus.Infof ("New " +:+ CurrentCRDAPIVersion +:+ " installation") ;;
        Ret None
      else Ret None)
    else if bool_decide (crdAPIVersion = CRDAPIVersionV1beta1) then
      logrus.Infof ("Upgrading from " +:+ CRDAPIVersionV1beta1 +:+ " to "
                    +:+ CurrentCRDAPIVersion) ;;
      err <- perform (v1beta1_UpgradeCRFromV1beta1ToV1beta2 namespace) ;;
      check err (
      let crdAPIVersionSetting :=
        {| Name := Name crdAPIVersionSetting;
           Value := CRDAPIVersionV1beta2 |} in
      r <- perform (Settings_Update namespace crdAPIVersionSetting) ;;
      let '(_, err) := r in
      if is_error err
      then Ret (errors.Wrapf err
                  ("cannot finish CRD API upgrade by setting the CRDAPIVersionSetting to "
                   +:+ CurrentCRDAPIVersion))
      else
      logrus.Infof ("CRD has been upgraded to "
                    +:+ Value crdAPIVersionSetting) ;;
      Ret None)
    else
      Ret (fmt.Errorf ("don't support upgrade from " +:+ crdAPIVersion
                       +:+ " to " +:+ CurrentCRDAPIVersion))).

Definition upgradeLocalNode : P (option error) :=
  defer_Wrap "upgrade local node failed" (
    err <- perform v070to080_UpgradeLocalNode ;;
    check err (
    Ret None)).

Definition doCRUpgrade (namespace : string) : P (option error) :=
  defer_Wrap "upgrade CRD failed" (
    err <- perform (Upgrade_ v070to080_UpgradeCRs namespace) ;;
    check err (
    err <- perform (Upgrade_ v100to101_UpgradeCRs namespace) ;;
    check err (
    err <- perform (Upgrade_ v102to110_UpgradeCRs namespace) ;;
    check err (
    err <- perform (Upgrade_ v110to111_UpgradeCRs namespace) ;;
    check err (
    err <- perform (Upgrade_ v110to120_UpgradeCRs namespace) ;;
    check err (
    err <- perform (Upgrade_ v111to120_UpgradeCRs namespace) ;;
    check err (
    err <- perform (Upgrade_ v120to121_UpgradeCRs namespace) ;;
    check err (
    err <- perform (Upgrade_ v122to123_UpgradeCRs namespace) ;;
    check err (
    Ret None))))))))).

Definition doPodsUpgrade (namespace : string) : P (option error) :=
  defer_Wrap "upgrade Pods failed" (
    err <- perform (Upgrade_ v100to101_UpgradeInstanceManagerPods namespace) ;;
    check err (
    err <- perform (Upgrade_ v102to110_UpgradePods namespace) ;;
    check err (
    err <- perform (Upgrade_ v110to111_UpgradePods namespace) ;;
    check err (
    Ret None)))).

Definition doServicesUpgrade (namespace : string) : P (option error) :=
  defer_Wrap "doServicesUpgrade failed" (
    err <- perform (Upgrade_ v110to111_UpgradeServices namespace) ;;
    check err (
    Ret None)).

Definition doDeploymentAndDaemonSetUpgrade (namespace : string)
  : P (option error) :=
  defer_Wrap "doDeploymentAndDaemonSetUpgrade failed" (
    err <- perform (Upgrade_ v110to111_UpgradeDeploymentAndDaemonSet namespace) ;;
    check err (
    Ret None)).

(** The body of the [OnStartedLeading] closure up to its deferred
    calls: each phase assigns [err], and a non-nil [err] returns. *)
Definition phases (namespace : string) : P (option error) :=
  err <- doAPIVersionUpgrade namespace ;;
  check err (
  err <- doCRUpgrade namespace ;;
  check err (
  err <- doPodsUpgrade namespace ;;
  check err (
  err <- doServicesUpgrade namespace ;;
  check err (
  err <- doDeploymentAndDaemonSetUpgrade namespace ;;
  check err (
  Ret err))))).

Definition upgrade (currentNodeID namespace : string) : P (option error) :=
  let err := None in
  (* defer cancel() *)
  let lock :=
    {| LeaseMeta_Name := LeaseLockName;
       LeaseMeta_Namespace := namespace;
       Identity := currentNodeID |} in
  err <- RunOrDie
    {| Lock := lock;
       ReleaseOnCancel := true;
       LeaseDuration := 20;
       RenewDeadline := 10;
       RetryPeriod := 2;
       Callbacks :=
         {| OnStartedLeading := fun _ =>
              logrus.Infof "Start upgrading" ;;
              err <- phases namespace ;;
              (* the two deferred calls, last registered first *)
              match err with
              | Some e => logrus.Errorf ("Upgrade failed: " +:+ Error e)
              | None => logrus.Infof "Finish upgrading"
              end ;;
              perform cancel ;;
              Ret err;
            OnStoppedLeading :=
              logrus.Infof ("Upgrade leader lost: " +:+ currentNodeID);
            OnNewLeader := fun identity =>
              if bool_decide (identity = currentNodeID) then Ret tt
              else logrus.Infof ("New upgrade leader elected: " +:+ identity) |} |}
    err ;;
  perform cancel ;;
  Ret err.

Definition Upgrade (kubeconfigPath currentNodeID : string)
  : P (option error) :=
  namespace <- perform (Getenv EnvPodNamespace) ;;
  namespace <-
    (if bool_decide (namespace = "") then
       logrus.Warnf ("Cannot detect pod namespace, environment variable "
                     +:+ EnvPodNamespace
                     +:+ " is missing, using default namespace") ;;
       Ret NamespaceDefault
     else Ret namespace) ;;
  err <- perform (BuildConfigFromFlags "" kubeconfigPath) ;;
  if is_error err
  then Ret (errors.Wrap err "unable to get client config") else
  err <- perform clientset_NewForConfig ;;
  if is_error err
  then Ret (errors.Wrap err "unable to get k8s client") else
  err <- perform lhclientset_NewForConfig ;;
  if is_error err
  then Ret (errors.Wrap err "unable to get clientset") else
  err <- perform AddToScheme ;;
  if is_error err
  then Ret (errors.Wrap err "unable to create scheme") else
  err <- upgradeLocalNode ;;
  check err (
  err <- upgrade currentNodeID namespace ;;
  check err (
  Ret None)).
End functions.
End upgrade.

(** ** Package [csi]: the managed-object sets of [deployment.go] *)
Module csi.
(** [*v1.Service], [*appsv1.Deployment], [*appsv1.DaemonSet]: desired
    state the set coordinator hands on without looking inside. *)
Record ObjectMeta : Type := {
  Name : string;
  Namespace : string;
}.

Inductive Object : Type :=
| Service (meta : ObjectMeta)
| Deployment (meta : ObjectMeta)
| DaemonSet (meta : ObjectMeta).

(** The capability operations bound to a kind. *)
Inductive resourceCreateFunc : Type :=
  serviceCreateFunc | deploymentCreateFunc | daemonSetCreateFunc.
Inductive resourceDeleteFunc : Type :=
  serviceDeleteFunc | deploymentDeleteFunc | daemonSetDeleteFunc.
Inductive resourceGetFunc : Type :=
  serviceGetFunc | deploymentGetFunc | daemonSetGetFunc.

(** The calls of [deployment.go] that leave the file: the reconciler
    ([deploy], [cleanup], defined elsewhere in the package), the logger,
    and the Go scheduler choosing between runnable goroutines. *)
Inductive call : Type -> Type :=
| deploy (obj : Object) (resource : string) (createFunc : resourceCreateFunc)
    (deleteFunc : resourceDeleteFunc) (getFunc : resourceGetFunc)
    : call (option error)
| cleanup (obj : Object) (resource : string)
    (deleteFunc : resourceDeleteFunc) (getFunc : resourceGetFunc)
    : call (option error)
| Warnf (msg : string) : call unit
| schedule : call bool.

Definition P : Type -> Type := Prog call.

(** Modelled from the spec: [sync.WaitGroup] with [util.RunAsync], which
    is not in [deployment.go].  The spec has the tasks run concurrently
    and joined on completion of all: a wait group is the list of tasks
    started on it, and waiting runs them interleaved to their ends. *)
Definition WaitGroup : Type := list (P unit).

(** Modelled from the spec: [util.RunAsync(&wg, f)] starts [f] as one more
    task of the group. *)
Definition RunAsync (wg : WaitGroup) (f : P unit) : WaitGroup := wg ++ [f].

(** Modelled from the spec: [wg.Wait()] returns when every task of the
    group has run to its end. *)
Definition Wait (wg : WaitGroup) : P unit :=
  foldr (par schedule) (Ret tt) wg.

(** [if err := cleanup(...); err != nil { logrus.Warnf(format, err) }] *)
Definition warn_on_error (format : string) (err : option error) : P unit :=
  match err with
  | Some e => perform (Warnf (format +:+ Error e))
  | None => Ret tt
  end.

Module AttacherDeployment.
Record t : Type := {
  service : ObjectMeta;
  deployment : ObjectMeta;
}.

Definition Deploy (a : t) : P (option error) :=
  err <- perform (deploy (Service (service a)) "service"
                    serviceCreateFunc serviceDeleteFunc serviceGetFunc) ;;
  check err (
  perform (deploy (Deployment (deployment a)) "deployment"
             deploymentCreateFunc deploymentDeleteFunc deploymentGetFunc)).

Definition Cleanup (a : t) : P unit :=
  let wg : WaitGroup := [] in
  (* defer wg.Wait() *)
  let wg := RunAsync wg (
    err <- perform (cleanup (Service (service a)) "service"
                      serviceDeleteFunc serviceGetFunc) ;;
    warn_on_error "Failed to cleanup service in attacher deployment: " err) in
  let wg := RunAsync wg (
    err <- perform (cleanup (Deployment (deployment a)) "deployment"
                      deploymentDeleteFunc deploymentGetFunc) ;;
    warn_on_error "Failed to cleanup deployment in attacher deployment: " err) in
  Wait wg.
End AttacherDeployment.

Module ProvisionerDeployment.
Record t : Type := {
  service : ObjectMeta;
  deployment : ObjectMeta;
}.

Definition Deploy (p : t) : P (option error) :=
  err <- perform (deploy (Service (service p)) "service"
                    serviceCreateFunc serviceDeleteFunc serviceGetFunc) ;;
  check err (
  perform (deploy (Deployment (deployment p)) "deployment"
             deploymentCreateFunc deploymentDeleteFunc deploymentGetFunc)).

Definition Cleanup (p : t) : P unit :=
  let wg : WaitGroup := [] in
  (* defer wg.Wait() *)
  let wg := RunAsync wg (
    err <- perform (cleanup (Service (service p)) "service"
                      serviceDeleteFunc serviceGetFunc) ;;
    warn_on_error "Failed to cleanup service in provisioner deployment: " err) in
  let wg := RunAsync wg (
    err <- perform (cleanup (Deployment (deployment p)) "deployment"
                      deploymentDeleteFunc deploymentGetFunc) ;;
    warn_on_error "Failed to cleanup deployment in provisioner deployment: " err) in
  Wait wg.
End ProvisionerDeployment.

Module PluginDeployment.
Record t : Type := {
  daemonSet : ObjectMeta;
}.

Definition Deploy (p : t) : P (option error) :=
  perform (deploy (DaemonSet (daemonSet p)) "daemon set"
             daemonSetCreateFunc daemonSetDeleteFunc daemonSetGetFunc).

Definition Cleanup (p : t) : P unit :=
  err <- perform (cleanup (DaemonSet (daemonSet p)) "daemon set"
                    daemonSetDeleteFunc daemonSetGetFunc) ;;
  warn_on_error "Failed to cleanup DaemonSet in plugin deployment: " err.
End PluginDeployment.

(** *** Observations on a trace of a managed-object set *)

(** The objects handed to [cleanup], in the order of the calls. *)
Definition cleaned (t : list (Event call)) : list Object :=
  omap (fun ev =>
          match ev with
          | Ev c _ =>
              match c with cleanup obj _ _ _ => Some obj | _ => None end
          end) t.

(** The objects whose [cleanup] returned an error, with that error. *)
Definition failed (t : list (Event call)) : list (Object * error) :=
  omap (fun ev =>
          match ev with
          | Ev c r =>
              match c in call R return R -> option (Object * error) with
              | cleanup obj _ _ _ => fun r => (fun e => (obj, e)) <$> r
              | _ => fun _ => None
              end r
          end) t.

(** The warnings logged. *)
Definition warned (t : list (Event call)) : list string :=
  omap (fun ev =>
          match ev with
          | Ev c _ => match c with Warnf msg => Some msg | _ => None end
          end) t.

Definition deploy_call (ev : Event call) : bool :=
  match ev with
  | Ev c _ => match c with deploy _ _ _ _ _ => true | _ => false end
  end.

(** The warning a set logs for a failed cleanup of one of its objects. *)
Definition warning (set : string) (failure : Object * error) : string :=
  "Failed to cleanup "
  +:+ match failure.1 with
      | Service _ => "service"
      | Deployment _ => "deployment"
      | DaemonSet _ => "DaemonSet"
      end
  +:+ " in " +:+ set +:+ " deployment: " +:+ Error failure.2.

(** What a run of a two-object deploy looks like: the service is
    reconciled first; its error is returned at once, with nothing else
    called; otherwise the deployment is reconciled and its result is the
    result. *)
Definition fail_fast (env : Env call) (h : list (Event call))
    (service deployment : ObjectMeta)
    (result : option error * list (Event call)) : Prop :=
  let first :=
    deploy (Service service) "service"
      serviceCreateFunc serviceDeleteFunc serviceGetFunc in
  let second :=
    deploy (Deployment deployment) "deployment"
      deploymentCreateFunc deploymentDeleteFunc deploymentGetFunc in
  match env _ first h with
  | Some e => result = (Some e, [Ev first (Some e)])
  | None =>
      let r := env _ second (h ++ [Ev first None]) in
      result = (r, [Ev first None; Ev second r])
  end.

(** What a run of a two-object cleanup looks like: both objects are
    cleaned up, in one order or the other; the warnings are those of the
    failed cleanups; nothing is deployed. *)
Definition best_effort (set : string) (service deployment : ObjectMeta)
    (t : list (Event call)) : Prop :=
  cleaned t ≡ₚ [Service service; Deployment deployment] /\
  warned t ≡ₚ map (warning set) (failed t) /\
  Forall (fun ev => deploy_call ev = false) t.

(** A scheduler that always lets the same side go first, in a cluster
    where no cleanup fails. *)
Definition always_pick (first : bool) : Env call := fun R c _ =>
  match c in call R return R with
  | deploy _ _ _ _ _ => None
  | cleanup _ _ _ _ => None
  | Warnf _ => tt
  | schedule => first
  end.
End csi.

(** ** A model of the cluster the coordinator talks to

    The properties of the coordinator hold for every environment.  The
    model below is one family of environments: an API server that keeps the
    Settings objects in a map and answers reads from it, with faults
    injected per call.  It gives the marker a value between runs, and
    concrete runs to evaluate. *)
Module cluster.
Import upgrade.

(** The Settings objects, by namespace and name, each with its value. *)
Abbreviation settings := (gmap (string * string) string).

(** What one call does to the Settings objects: a create or an update
    that the server answered without error stores the object. *)
Definition apply (st : settings) (ev : Event call) : settings :=
  match ev with
  | Ev c r =>
      match c in call R return R -> settings with
      | Settings_Create namespace s => fun r =>
          if is_error r.2 then st else <[(namespace, Name s) := Value s]> st
      | Settings_Update namespace s => fun r =>
          if is_error r.2 then st else <[(namespace, Name s) := Value s]> st
      | _ => fun _ => st
      end r
  end.

Definition settings_after (st : settings) (t : list (Event call)) : settings :=
  foldl apply st t.

Record scenario : Type := {
  POD_NAMESPACE : string;
  leaders : list string;
  initial : settings;
  upgradable : bool;
  fault : forall R : Type, call R -> option error;
}.

Definition NewNotFound (name : string) : error :=
  StatusError StatusReasonNotFound
    ("settings.longhorn.io " +:+ name +:+ " not found").

Definition NewAlreadyExists (name : string) : error :=
  StatusError StatusReasonAlreadyExists
    ("settings.longhorn.io " +:+ name +:+ " already exists").

Definition env (sc : scenario) : Env call := fun R c h =>
  let st := settings_after (initial sc) h in
  let zero := {| Name := EmptyString; Value := EmptyString |} in
  match c in call R return R with
  | Getenv _ => POD_NAMESPACE sc
  | BuildConfigFromFlags m k => fault sc _ (BuildConfigFromFlags m k)
  | clientset_NewForConfig => fault sc _ clientset_NewForConfig
  | lhclientset_NewForConfig => fault sc _ lhclientset_NewForConfig
  | AddToScheme => fault sc _ AddToScheme
  | Log _ _ => tt
  | AcquireLease _ _ _ _ _ => leaders sc
  | cancel => tt
  | Settings_Get namespace name =>
      match fault sc _ (Settings_Get namespace name) with
      | Some e => (zero, Some e)
      | None =>
          match st !! (namespace, name) with
          | Some v => ({| Name := name; Value := v |}, None)
          | None => (zero, Some (NewNotFound name))
          end
      end
  | Settings_Create namespace s =>
      match fault sc _ (Settings_Create namespace s) with
      | Some e => (zero, Some e)
      | None =>
          match st !! (namespace, Name s) with
          | Some _ => (zero, Some (NewAlreadyExists (Name s)))
          | None => (s, None)
          end
      end
  | Settings_Update namespace s =>
      match fault sc _ (Settings_Update namespace s) with
      | Some e => (zero, Some e)
      | None =>
          match st !! (namespace, Name s) with
          | Some _ => (s, None)
          | None => (zero, Some (NewNotFound (Name s)))
          end
      end
  | v1beta1_CanUpgrade namespace =>
      match fault sc _ (v1beta1_CanUpgrade namespace) with
      | Some e => (false, Some e)
      | None => (upgradable sc, None)
      end
  | v1beta1_UpgradeCRFromV1beta1ToV1beta2 namespace =>
      fault sc _ (v1beta1_UpgradeCRFromV1beta1ToV1beta2 namespace)
  | v070to080_UpgradeLocalNode => fault sc _ v070to080_UpgradeLocalNode
  | Upgrade_ u namespace => fault sc _ (Upgrade_ u namespace)
  end.

(** One run of the coordinator on some replica, against some behaviour of
    the cluster. *)
Record attempt : Type := {
  kubeconfigPath : string;
  currentNodeID : string;
  behaviour : Env call;
}.

(** The Settings objects before the first run and after each run of a
    sequence of runs. *)
Fixpoint campaign `{!types.consts} (st : settings) (runs : list attempt)
  : list settings :=
  match runs with
  | [] => [st]
  | a :: runs' =>
      st :: campaign
              (settings_after st
                 (run (behaviour a)
                    (Upgrade (kubeconfigPath a) (currentNodeID a)) []).2)
              runs'
  end.

(** The place of a marker value on the path empty, legacy, current. *)
Definition rank `{!types.consts} (marker : option string) : nat :=
  match marker with
  | None => 0
  | Some v =>
      if bool_decide (v = types.CurrentCRDAPIVersion) then 2
      else if bool_decide (v = types.CRDAPIVersionV1beta1) then 1
      else 0
  end.

Definition no_fault : forall R : Type, call R -> option error :=
  fun _ _ => None.

(** The constants as longhorn-manager declares them. *)
Definition longhorn : types.consts := {|
  types.EnvPodNamespace := "POD_NAMESPACE";
  types.SettingNameCRDAPIVersion := "crd-api-version";
  types.CRDAPIVersionV1beta1 := "longhorn.io/v1beta1";
  types.CRDAPIVersionV1beta2 := "longhorn.io/v1beta2";
  types.CurrentCRDAPIVersion := "longhorn.io/v1beta2";
|}.

(** *** Concrete clusters *)

Definition namespace : string := "longhorn-system".
Definition marker_key : string * string := (namespace, "crd-api-version").

(** Nothing installed yet. *)
Definition fresh : scenario := {|
  POD_NAMESPACE := namespace;
  leaders := ["node-b"];
  initial := ∅;
  upgradable := true;
  fault := no_fault;
|}.

(** An installation that stores the given marker. *)
Definition installed (tag : string) : scenario := {|
  POD_NAMESPACE := namespace;
  leaders := [];
  initial := {[ marker_key := tag ]};
  upgradable := true;
  fault := no_fault;
|}.

(** Nothing installed when the marker is read, but the create is answered
    "already exists". *)
Definition raced : scenario := {|
  POD_NAMESPACE := namespace;
  leaders := [];
  initial := ∅;
  upgradable := true;
  fault := fun R c =>
    match c with
    | Settings_Create _ s => Some (NewAlreadyExists (Name s))
    | _ => None
    end;
|}.

(** The local-node step fails. *)
Definition broken_node : scenario := {|
  POD_NAMESPACE := namespace;
  leaders := [];
  initial := ∅;
  upgradable := true;
  fault := fun R c =>
    match c with
    | v070to080_UpgradeLocalNode => Some (errorString "cannot read node config")
    | _ => None
    end;
|}.

(** The pod upgrader of v102to110 fails on an installation at the current
    tag. *)
Definition broken_pods : scenario := {|
  POD_NAMESPACE := namespace;
  leaders := [];
  initial := {[ marker_key := "longhorn.io/v1beta2" ]};
  upgradable := true;
  fault := fun R c =>
    match c with
    | Upgrade_ v102to110_UpgradePods _ => Some (errorString "pod not ready")
    | _ => None
    end;
|}.

(** A first run on an empty cluster by one replica, then a run by another
    replica that finds the marker at the current tag. *)
Definition two_runs : list attempt :=
  [ {| kubeconfigPath := "/etc/kubeconfig"; currentNodeID := "node-a";
       behaviour := env fresh |};
    {| kubeconfigPath := "/etc/kubeconfig"; currentNodeID := "node-b";
       behaviour := env (installed "longhorn.io/v1beta2") |} ].
End cluster.

(** ** The chain as the specification words it *)
Module chain.
Import upgrade.

(** The upgraders in the order the specification declares, each with the
    name its phase puts on an error: custom resources by ascending version
    pair, then pods, then services, then workload controllers. *)
Definition declared_order : list (Upgrader * string) :=
  [ (v070to080_UpgradeCRs, "upgrade CRD failed");
    (v100to101_UpgradeCRs, "upgrade CRD failed");
    (v102to110_UpgradeCRs, "upgrade CRD failed");
    (v110to111_UpgradeCRs, "upgrade CRD failed");
    (v110to120_UpgradeCRs, "upgrade CRD failed");
    (v111to120_UpgradeCRs, "upgrade CRD failed");
    (v120to121_UpgradeCRs, "upgrade CRD failed");
    (v122to123_UpgradeCRs, "upgrade CRD failed");
    (v100to101_UpgradeInstanceManagerPods, "upgrade Pods failed");
    (v102to110_UpgradePods, "upgrade Pods failed");
    (v110to111_UpgradePods, "upgrade Pods failed");
    (v110to111_UpgradeServices, "doServicesUpgrade failed");
    (v110to111_UpgradeDeploymentAndDaemonSet,
     "doDeploymentAndDaemonSetUpgrade failed") ].

(** Steps run strictly in the given order; the first error aborts, wrapped
    with the name of the phase of the failing step. *)
Fixpoint in_order (namespace : string) (steps : list (Upgrader * string))
  : P (option error) :=
  match steps with
  | [] => Ret None
  | (u, phase) :: steps' =>
      err <- perform (Upgrade_ u namespace) ;;
      if is_error err then Ret (errors.Wrap err phase)
      else in_order namespace steps'
  end.

(** The call for the lease as the specification fixes it: the lease of
    fixed name in the operating namespace, held under the identity of the
    replica, released on cancel, with a lease duration of 20s, a renew
    deadline of 10s and a retry period of 2s. *)
Definition lease_call (currentNodeID namespace : string) : call (list string) :=
  AcquireLease
    {| LeaseMeta_Name := LeaseLockName;
       LeaseMeta_Namespace := namespace;
       Identity := currentNodeID |}
    true 20 10 2.

(** Calls that contend for a lease. *)
Definition acquires (ev : Event call) : bool :=
  match ev with
  | Ev c _ => match c with AcquireLease _ _ _ _ _ => true | _ => false end
  end.

(** The call of a step that the upgrader answered without error. *)
Definition completed (namespace : string) (step : Upgrader * string)
  : Event call :=
  Ev (Upgrade_ step.1 namespace) None.

(** Calls that belong to the gate or to a phase of the chain. *)
Definition gate_or_phase (ev : Event call) : bool :=
  match ev with
  | Ev c _ =>
      match c with
      | AcquireLease _ _ _ _ _
      | Settings_Get _ _ | Settings_Create _ _ | Settings_Update _ _
      | v1beta1_CanUpgrade _ | v1beta1_UpgradeCRFromV1beta1ToV1beta2 _
      | Upgrade_ _ _ => true
      | _ => false
      end
  end.

(** Calls to a per-version upgrader. *)
Definition upgrader_call (ev : Event call) : bool :=
  match ev with
  | Ev c _ => match c with Upgrade_ _ _ => true | _ => false end
  end.

(** The answer to the call of the local-node step, if the event is
    that call. *)
Definition local_node_answer (ev : Event call) : option (option error) :=
  match ev with
  | Ev c r =>
      match c in call R return R -> option (option error) with
      | v070to080_UpgradeLocalNode => fun r => Some r
      | _ => fun _ => None
      end r
  end.

(** The call of the local-node step. *)
Definition local_node_call (ev : Event call) : bool :=
  match ev with
  | Ev c _ => match c with v070to080_UpgradeLocalNode => true | _ => false end
  end.

(** The Setting a call asks the server to store, if it is a write. *)
Definition written (ev : Event call) : option Setting :=
  match ev with
  | Ev c _ =>
      match c with
      | Settings_Create _ s | Settings_Update _ s => Some s
      | _ => None
      end
  end.

(** The marker is read as empty or absent: the read fails with "not found",
    or it succeeds with the empty value. *)
Definition empty_or_absent (r : Setting * option error) : Prop :=
  match r.2 with
  | Some e => apierrors.IsNotFound e = true
  | None => Value r.1 = ""
  end.

(** Every Setting the coordinator asks the server to store carries the
    current tag. *)
Definition writes_current `{!types.consts} (ev : Event call) : Prop :=
  forall s, written ev = Some s -> Value s = types.CurrentCRDAPIVersion.
End chain.

(** ** Further observations on runs of the coordinator *)
Module observe.
Import upgrade cluster.

(** The namespace a call is made in, for the calls that have one. *)
Definition namespace_of (ev : Event call) : option string :=
  match ev with
  | Ev c _ =>
      match c with
      | AcquireLease lock _ _ _ _ => Some (LeaseMeta_Namespace lock)
      | Settings_Get namespace _
      | Settings_Create namespace _
      | Settings_Update namespace _
      | v1beta1_CanUpgrade namespace
      | v1beta1_UpgradeCRFromV1beta1ToV1beta2 namespace
      | Upgrade_ _ namespace => Some namespace
      | _ => None
      end
  end.

(** Log lines at warning level. *)
Definition warns (ev : Event call) : bool :=
  match ev with
  | Ev c _ => match c with Log WarnLevel _ => true | _ => false end
  end.

(** A failed call of the bootstrap of [Upgrade]: its error, and the
    message [Upgrade] wraps it with. *)
Definition bootstrap_failure (ev : Event call) : option (error * string) :=
  match ev with
  | Ev c r =>
      match c in call R return R -> option (error * string) with
      | BuildConfigFromFlags _ _ => fun r =>
          (fun e => (e, "unable to get client config")) <$> r
      | clientset_NewForConfig => fun r =>
          (fun e => (e, "unable to get k8s client")) <$> r
      | lhclientset_NewForConfig => fun r =>
          (fun e => (e, "unable to get clientset")) <$> r
      | AddToScheme => fun r =>
          (fun e => (e, "unable to create scheme")) <$> r
      | _ => fun _ => None
      end r
  end.

Definition bootstrap_failed (ev : Event call) : bool :=
  match bootstrap_failure ev with Some _ => true | None => false end.

(** The messages [Upgrade] and the functions it calls wrap errors with. *)
Definition contexts : list string :=
  [ "unable to get client config"; "unable to get k8s client";
    "unable to get clientset"; "unable to create scheme";
    "upgrade local node failed"; "upgrade API version failed";
    "upgrade CRD failed"; "upgrade Pods failed"; "doServicesUpgrade failed";
    "doDeploymentAndDaemonSetUpgrade failed" ].

(** A result that is nil or an error wrapped with one of the messages. *)
Definition wrapped_with (messages : list string) (res : option error) : Prop :=
  forall e, res = Some e ->
    exists cause message, e = withMessage cause message /\ message ∈ messages.

(** The calls of [doAPIVersionUpgrade] that change the cluster. *)
Inductive Mutation : Type := Created | Converted | Updated.

Definition mutation (ev : Event call) : option Mutation :=
  match ev with
  | Ev c _ =>
      match c with
      | Settings_Create _ _ => Some Created
      | v1beta1_UpgradeCRFromV1beta1ToV1beta2 _ => Some Converted
      | Settings_Update _ _ => Some Updated
      | _ => None
      end
  end.

(** A cluster without faults that holds the given Settings. *)
Definition faultless (pod : string) (observed : list string) (can : bool)
    (st : settings) : Env call :=
  cluster.env {| POD_NAMESPACE := pod; leaders := observed; initial := st;
                 upgradable := can; fault := no_fault |}.

(** Calls that neither convert the custom resources nor update the
    marker. *)
Definition converts_nothing (ev : Event call) : Prop :=
  mutation ev <> Some Converted /\ mutation ev <> Some Updated.

(** The API server cannot be reached when the marker is read. *)
Definition unreachable : scenario := {|
  POD_NAMESPACE := namespace;
  leaders := [];
  initial := ∅;
  upgradable := true;
  fault := fun R c =>
    match c with
    | Settings_Get _ _ => Some (errorString "connection refused")
    | _ => None
    end;
|}.

(** No Kubernetes client can be built from the configuration. *)
Definition no_client : scenario := {|
  POD_NAMESPACE := namespace;
  leaders := [];
  initial := ∅;
  upgradable := true;
  fault := fun R c =>
    match c with
    | clientset_NewForConfig => Some (errorString "invalid configuration")
    | _ => None
    end;
|}.
End observe.

(** ** Observations on the cleanup of a managed-object set *)

Module reports.
Import csi.

(** Every warning of the trace reports a cleanup that has failed earlier
    in the trace (or is among [seen], the failures before the trace). *)
Fixpoint warnings_follow (set : string) (seen : list (Object * error))
    (t : list (Event call)) : Prop :=
  match t with
  | [] => True
  | Ev c r :: t' =>
      match c in call R return R -> Prop with
      | cleanup obj _ _ _ => fun r =>
          warnings_follow set
            (match r with Some e => (obj, e) :: seen | None => seen end) t'
      | Warnf msg => fun _ =>
          msg ∈ map (warning set) seen /\ warnings_follow set seen t'
      | _ => fun _ => warnings_follow set seen t'
      end r
  end.
End reports.

(** ** The plugin daemon set: [NewPluginDeployment] *)

Module plugin.

(** The constants of package [types] and the path helpers of package
    [csi] that [NewPluginDeployment] uses, and [filepath.Join]: none is
    defined in [deployment.go], and nothing is assumed about them. *)
Class helpers : Type := {
  CSIPluginName : string;
  LonghornDriverName : string;
  GetInContainerCSIRegistrationDir : string;
  GetInContainerCSISocketDir : string;
  GetInContainerCSISocketFilePath : string;
  GetInContainerPluginsDir : string;
  GetCSIEndpoint : string;
  GetOnHostCSISocketFilePath : string -> string;
  GetOnHostCSIRegistrationDir : string -> string;
  GetOnHostCSISocketDir : string -> string;
  GetOnHostPluginsDir : string -> string;
  filepath_Join : list string -> string;
}.

(** The Kubernetes types, with the fields the file sets; a field left out
    of a literal has its zero value. *)
Inductive HostPathType : Type :=
  HostPathDirectory | HostPathDirectoryOrCreate.

Inductive MountPropagationMode : Type :=
  MountPropagationNone | MountPropagationHostToContainer
| MountPropagationBidirectional.

Record Toleration : Type := {
  Key : string;
  Operator : string;
  Toleration_Value : string;
  Effect : string;
  TolerationSeconds : option Z;
}.

Record EnvVar : Type := {
  EnvVar_Name : string;
  EnvVar_Value : string;
  ValueFrom_FieldRef_FieldPath : option string;
}.

Record VolumeMount : Type := {
  VolumeMount_Name : string;
  MountPath : string;
  MountPropagation : option MountPropagationMode;
  ReadOnly : bool;
}.

Record SecurityContext : Type := {
  Privileged : option bool;
  Capabilities_Add : option (list string);
  AllowPrivilegeEscalation : option bool;
}.

Record Container : Type := {
  Container_Name : string;
  Image : string;
  Lifecycle_PreStop_Exec_Command : option (list string);
  Container_SecurityContext : option SecurityContext;
  Args : list string;
  Env : list EnvVar;
  VolumeMounts : list VolumeMount;
}.

Record HostPathVolumeSource : Type := {
  Path : string;
  Type_ : option HostPathType;
}.

Record Volume : Type := {
  Volume_Name : string;
  HostPath : option HostPathVolumeSource;
}.

Record PodSpec : Type := {
  ServiceAccountName : string;
  Tolerations : list Toleration;
  Containers : list Container;
  Volumes : list Volume;
}.

Record DaemonSet : Type := {
  ObjectMeta : csi.ObjectMeta;
  Selector_MatchLabels : gmap string string;
  Template_Labels : gmap string string;
  Template_Spec : PodSpec;
}.

Record PluginDeployment : Type := {
  daemonSet : DaemonSet;
}.

Section functions.
Context `{!helpers}.

Definition NewPluginDeployment
    (namespace serviceAccount nodeDriverRegistrarImage managerImage
       managerURL rootDir : string)
    (tolerations : list Toleration) : PluginDeployment :=
  let daemonSet := {|
    ObjectMeta := {| csi.Name := CSIPluginName; csi.Namespace := namespace |};
    Selector_MatchLabels := {[ "app" := CSIPluginName ]};
    Template_Labels := {[ "app" := CSIPluginName ]};
    Template_Spec := {|
      ServiceAccountName := serviceAccount;
      Tolerations := tolerations;
      Containers := [
        {| Container_Name := "node-driver-registrar";
           Image := nodeDriverRegistrarImage;
           Lifecycle_PreStop_Exec_Command := Some [
             "/bin/sh"; "-c";
             "rm -rf " +:+ GetInContainerCSIRegistrationDir +:+ "/"
               +:+ LonghornDriverName +:+ " "
               +:+ GetInContainerCSIRegistrationDir +:+ "/"
               +:+ LonghornDriverName +:+ "-reg.sock "
               +:+ GetInContainerCSISocketDir +:+ "/*" ];
           Container_SecurityContext := Some {|
             Privileged := Some true;
             Capabilities_Add := None;
             AllowPrivilegeEscalation := None |};
           Args := [
             "--v=5";
             "--csi-address=$(ADDRESS)";
             "--kubelet-registration-path="
               +:+ GetOnHostCSISocketFilePath rootDir ];
           Env := [
             {| EnvVar_Name := "ADDRESS";
                EnvVar_Value := GetInContainerCSISocketFilePath;
                ValueFrom_FieldRef_FieldPath := None |} ];
           VolumeMounts := [
             {| VolumeMount_Name := "socket-dir";
                MountPath := GetInContainerCSISocketDir;
                MountPropagation := None; ReadOnly := false |};
             {| VolumeMount_Name := "registration-dir";
                MountPath := GetInContainerCSIRegistrationDir;
                MountPropagation := None; ReadOnly := false |} ] |};
        {| Container_Name := "longhorn-csi-plugin";
           Container_SecurityContext := Some {|
             Privileged := Some true;
             Capabilities_Add := Some ["SYS_ADMIN"];
             AllowPrivilegeEscalation := Some true |};
           Image := managerImage;
           Lifecycle_PreStop_Exec_Command := Some [
             "/bin/sh"; "-c";
             "rm -f " +:+ GetInContainerCSISocketDir +:+ "/*" ];
           Args := [
             "longhorn-manager";
             "-d";
             "csi";
             "--nodeid=$(NODE_ID)";
             "--endpoint=$(CSI_ENDPOINT)";
             "--drivername=" +:+ LonghornDriverName;
             "--manager-url=" +:+ managerURL ];
           Env := [
             {| EnvVar_Name := "NODE_ID";
                EnvVar_Value := "";
                ValueFrom_FieldRef_FieldPath := Some "spec.nodeName" |};
             {| EnvVar_Name := "CSI_ENDPOINT";
                EnvVar_Value := GetCSIEndpoint;
                ValueFrom_FieldRef_FieldPath := None |} ];
           VolumeMounts := [
             {| VolumeMount_Name := "plugin-dir";
                MountPath := GetInContainerPluginsDir;
                MountPropagation := Some MountPropagationBidirectional;
                ReadOnly := false |};
             {| VolumeMount_Name := "socket-dir";
                MountPath := GetInContainerCSISocketDir;
                MountPropagation := None; ReadOnly := false |};
             {| VolumeMount_Name := "pods-mount-dir";
                MountPath := filepath_Join [rootDir; "/pods"];
                MountPropagation := Some MountPropagationBidirectional;
                ReadOnly := false |};
             {| VolumeMount_Name := "host-dev";
                MountPath := "/dev";
                MountPropagation := None; ReadOnly := false |};
             {| VolumeMount_Name := "host-sys";
                MountPath := "/sys";
                MountPropagation := None; ReadOnly := false |};
             {| VolumeMount_Name := "lib-modules";
                MountPath := "/lib/modules";
                MountPropagation := None; ReadOnly := true |} ] |} ];
      Volumes := [
        {| Volume_Name := "registration-dir";
           HostPath := Some {| Path := GetOnHostCSIRegistrationDir rootDir;
                               Type_ := Some HostPathDirectory |} |};
        {| Volume_Name := "socket-dir";
           HostPath := Some {| Path := GetOnHostCSISocketDir rootDir;
                               Type_ := Some HostPathDirectoryOrCreate |} |};
        {| Volume_Name := "plugin-dir";
           HostPath := Some {| Path := GetOnHostPluginsDir rootDir;
                               Type_ := Some HostPathDirectory |} |};
        {| Volume_Name := "pods-mount-dir";
           HostPath := Some {| Path := filepath_Join [rootDir; "/pods"];
                               Type_ := Some HostPathDirectoryOrCreate |} |};
        {| Volume_Name := "host-dev";
           HostPath := Some {| Path := "/dev"; Type_ := None |} |};
        {| Volume_Name := "host-sys";
           HostPath := Some {| Path := "/sys"; Type_ := None |} |};
        {| Volume_Name := "lib-modules";
           HostPath := Some {| Path := "/lib/modules"; Type_ := None |} |} ]
    |}
  |} in
  {| daemonSet := daemonSet |}.
End functions.

(** *** Observations on a pod specification *)

(** The container runs privileged. *)
Definition privileged (c : Container) : bool :=
  match Container_SecurityContext c with
  | Some sc => bool_decide (Privileged sc = Some true)
  | None => false
  end.

(** The mount propagates mounts made in the container back to the host. *)
Definition bidirectional (m : VolumeMount) : bool :=
  match MountPropagation m with
  | Some MountPropagationBidirectional => true
  | _ => false
  end.

(** The host path of the volume of the given name, when the pod declares
    one. *)
Definition host_path (spec : PodSpec) (name : string) : option string :=
  v ← list_find (fun v => Volume_Name v = name) (Volumes spec);
  Path <$> HostPath v.2.

(** The mounts of the pod, each with the name of its container. *)
Definition mounts (spec : PodSpec) : list (string * VolumeMount) :=
  c ← Containers spec; (fun m => (Container_Name c, m)) <$> VolumeMounts c.

(** What the plugin set hands to the reconciler. *)
Definition object (p : PluginDeployment) : csi.PluginDeployment.t :=
  {| csi.PluginDeployment.daemonSet := ObjectMeta (daemonSet p) |}.
End plugin.

(** ** Running programs: the equations of [run] *)

Arguments run : simpl never.

Section run_facts.
Context {E : Type -> Type}.
Implicit Types (env : Env E) (h t : list (Event E)).

Lemma run_Ret {A} env (a : A) h : run env (Ret a) h = (a, []).
Proof. reflexivity. Qed.

Lemma run_Vis {A R} env (c : E R) (k : R -> Prog E A) h :
  run env (Vis c k) h =
    ((run env (k (env _ c h)) (h ++ [Ev c (env _ c h)])).1,
     Ev c (env _ c h) :: (run env (k (env _ c h)) (h ++ [Ev c (env _ c h)])).2).
Proof.
  unfold run at 1; fold (@run E A).
  by destruct (run env (k (env R c h)) (h ++ [Ev c (env R c h)])).
Qed.

Lemma run_perform {R} env (c : E R) h :
  run env (perform c) h = (env _ c h, [Ev c (env _ c h)]).
Proof. unfold perform. by rewrite run_Vis, run_Ret. Qed.

(** Sequencing: the second program starts in the history the first one
    leaves, and the traces concatenate. *)
Lemma run_bind {A B} env (p : Prog E A) (f : A -> Prog E B) h :
  run env (bind p f) h =
    ((run env (f (run env p h).1) (h ++ (run env p h).2)).1,
     (run env p h).2 ++ (run env (f (run env p h).1) (h ++ (run env p h).2)).2).
Proof.
  revert h. induction p as [a|R c k IH]; intros h; cbn [bind].
  - rewrite run_Ret; cbn. rewrite app_nil_r. by destruct (run env (f a) h).
  - rewrite !run_Vis; cbn. rewrite IH, <-app_assoc. reflexivity.
Qed.

Lemma run_defer_Wrap env message (body : Prog E (option error)) h :
  run env (defer_Wrap message body) h =
    (errors.Wrap (run env body h).1 message, (run env body h).2).
Proof. unfold defer_Wrap. rewrite run_bind, run_Ret; cbn. by rewrite app_nil_r. Qed.

Lemma run_bind_eq {A B} env (p : Prog E A) (f : A -> Prog E B) h a t1 b t2 :
  run env p h = (a, t1) ->
  run env (f a) (h ++ t1) = (b, t2) ->
  run env (bind p f) h = (b, t1 ++ t2).
Proof. intros Hp Hf. by rewrite run_bind, Hp; cbn; rewrite Hf. Qed.

Lemma run_bind_inv {A B} env (p : Prog E A) (f : A -> Prog E B) h res t :
  run env (bind p f) h = (res, t) ->
  exists a t1 t2,
    run env p h = (a, t1) /\ run env (f a) (h ++ t1) = (res, t2) /\ t = t1 ++ t2.
Proof.
  rewrite run_bind. intros [= <- <-].
  eexists _, _, _. split; [apply surjective_pairing|].
  split; [apply surjective_pairing|done].
Qed.

Lemma run_perform_inv {R} env (c : E R) h a t :
  run env (perform c) h = (a, t) -> t = [Ev c a].
Proof. rewrite run_perform. by intros [= <- <-]. Qed.
End run_facts.

(** An element marked by [f] in a list whose front part has no marked
    element is the element after the front part or lies behind it. *)
Lemma elem_after_prefix {A} (f : A -> bool) (l1 : list A) x l2 k1 y k2 :
  Forall (fun a => f a = false) l1 ->
  f y = true ->
  l1 ++ x :: l2 = k1 ++ y :: k2 ->
  (k1 = l1 /\ y = x /\ k2 = l2) \/
  (exists m, k1 = l1 ++ x :: m /\ l2 = m ++ y :: k2).
Proof.
  intros Hl1 Hy. revert k1.
  induction Hl1 as [|a l1 Ha _ IH]; intros [|b k1]; cbn; intros [= ? ?]; subst.
  - by left.
  - right. by exists k1.
  - congruence.
  - destruct (IH k1) as [(-> & -> & ->)|(m & -> & ->)]; [done|by left|].
    right. by exists m.
Qed.

(** ** What holds for every environment: [wp], [always], [eqp] *)

Section wp_facts.
Context {E : Type -> Type}.
Implicit Types (env : Env E) (h t : list (Event E)).

Lemma wp_mono {A} (p : Prog E A) (Q Q' : A -> list (Event E) -> Prop) :
  (forall a t, Q a t -> Q' a t) -> wp p Q -> wp p Q'.
Proof.
  revert Q Q'. induction p as [a|R c k IH]; intros Q Q' HQ; cbn.
  - apply HQ.
  - intros Hk r. eapply IH; [|apply Hk]. intros a t. apply HQ.
Qed.

Lemma wp_run {A} env (p : Prog E A) (Q : A -> list (Event E) -> Prop) h :
  wp p Q -> Q (run env p h).1 (run env p h).2.
Proof.
  revert Q h. induction p as [a|R c k IH]; intros Q h; cbn.
  - by rewrite run_Ret.
  - intros Hk. rewrite run_Vis; cbn. apply (IH _ (fun a t => Q a (Ev c _ :: t))), Hk.
Qed.

Lemma wp_bind {A B} (p : Prog E A) (f : A -> Prog E B)
    (Q : B -> list (Event E) -> Prop) :
  wp p (fun a t1 => wp (f a) (fun b t2 => Q b (t1 ++ t2))) -> wp (bind p f) Q.
Proof.
  revert Q. induction p as [a|R c k IH]; intros Q; cbn.
  - done.
  - intros Hk r. apply IH. eapply wp_mono; [|apply Hk]. done.
Qed.

Lemma always_Ret (I : Event E -> Prop) {A} (a : A) : always I (Ret a).
Proof. by constructor. Qed.

Lemma always_perform (I : Event E -> Prop) {R} (c : E R) :
  (forall r, I (Ev c r)) -> always I (perform c).
Proof. intros Hc r. cbn. by repeat constructor. Qed.

Lemma always_bind (I : Event E -> Prop) {A B} (p : Prog E A) (f : A -> Prog E B) :
  always I p -> (forall a, always I (f a)) -> always I (bind p f).
Proof.
  intros Hp Hf. apply wp_bind. eapply wp_mono; [|apply Hp].
  intros a t1 Ht1. eapply wp_mono; [|apply Hf].
  intros b t2 Ht2. cbn. by apply Forall_app.
Qed.

Lemma always_for_range (I : Event E -> Prop) {A} (l : list A) (f : A -> Prog E unit) :
  (forall x, always I (f x)) -> always I (for_range l f).
Proof.
  intros Hf. induction l as [|x l IH]; cbn.
  - apply (always_Ret I tt).
  - by apply always_bind.
Qed.

Lemma always_run (I : Event E -> Prop) {A} env (p : Prog E A) h :
  always I p -> Forall I (run env p h).2.
Proof. intros Hp. apply (wp_run env p _ h Hp). Qed.

Lemma eqp_refl {A} (p : Prog E A) : eqp p p.
Proof. induction p; by constructor. Qed.

Lemma eqp_bind {A B} (p : Prog E A) (f g : A -> Prog E B) :
  (forall a, eqp (f a) (g a)) -> eqp (bind p f) (bind p g).
Proof. intros Hfg. induction p; cbn; [done|by constructor]. Qed.

Lemma eqp_run {A} env (p q : Prog E A) h : eqp p q -> run env p h = run env q h.
Proof.
  intros Hpq. revert h. induction Hpq as [a|R c k k' _ IH]; intros h.
  - done.
  - by rewrite !run_Vis, IH.
Qed.

Lemma first_error_None env (ps : list (Prog E (option error))) h :
  first_error env ps h = None <-> all_completed env ps h.
Proof.
  revert h. induction ps as [|p ps IH]; intros h; cbn.
  - done.
  - destruct (run env p h).1 as [e|].
    + split; [done|]. by intros [? _].
    + rewrite IH. tauto.
Qed.
End wp_facts.

(** ** Tactics for runs *)

Ltac run_step :=
  first [ rewrite run_defer_Wrap | rewrite run_bind | rewrite run_perform
        | rewrite run_Ret | rewrite run_Vis ]; cbn.

(** Answers of type [unit] are [tt]. *)
Ltac run_unit :=
  repeat match goal with
         | |- context [Ev _ ?r] =>
             lazymatch type of r with
             | unit => lazymatch r with tt => fail | _ => destruct r end
             end
         end.

Ltac run_deriv :=
  lazymatch goal with
  | |- run _ (bind _ _) _ = _ =>
      eapply run_bind_eq; [run_deriv|cbv beta; run_deriv]
  | |- run _ (perform _) _ = _ => apply run_perform
  | |- run _ (Ret _) _ = _ => apply run_Ret
  | |- run _ (upgrade.logrus.Infof _) _ = _ => apply run_perform
  | |- run _ (upgrade.logrus.Errorf _) _ = _ => apply run_perform
  | |- run _ (upgrade.logrus.Warnf _) _ = _ => apply run_perform
  | |- run _ _ _ = _ => apply surjective_pairing
  end.

(** Inversion of a run, one construct at a time: the answers become
    variables and the trace a list of events over them. *)
Ltac run_inv H :=
  cbv beta zeta in H; cbn [errors.Wrap errors.Wrapf check is_error] in H;
  lazymatch type of H with
  | run _ (bind _ _) _ = _ =>
      let H1 := fresh "H" in
      apply run_bind_inv in H as (? & ? & ? & H1 & H & ->); run_inv H1; run_inv H
  | run _ (perform _) _ = _ => apply run_perform_inv in H as ->
  | run _ (Ret _) _ = _ => rewrite run_Ret in H; injection H as <- <-
  | run _ (upgrade.logrus.Infof _) _ = _ => apply run_perform_inv in H as ->
  | run _ (upgrade.logrus.Warnf _) _ = _ => apply run_perform_inv in H as ->
  | run _ (upgrade.logrus.Errorf _) _ = _ => apply run_perform_inv in H as ->
  | run _ (defer_Wrap _ _) _ = _ => unfold defer_Wrap in H; run_inv H
  | run _ (check ?e _) _ = _ => destruct e; cbn [check] in H; run_inv H
  | run _ (if is_error ?e then _ else _) _ = _ =>
      destruct e; cbn [is_error] in H; run_inv H
  | run _ (if ?b then _ else _) _ = _ => destruct b eqn:?; run_inv H
  | run _ (match ?x with _ => _ end) _ = _ => destruct x; run_inv H
  | _ => idtac
  end.

(** The events of a trace before the call of the local-node step. *)
Ltac before_local_node t :=
  lazymatch t with
  | Ev upgrade.v070to080_UpgradeLocalNode _ :: _ =>
      constr:(@nil (Event upgrade.call))
  | ?e :: ?t' => let b := before_local_node t' in constr:(e :: b)
  | _ => constr:(@nil (Event upgrade.call))
  end.

(** All but the last element, and the last element, of a list written
    out. *)
Ltac init_of t :=
  lazymatch t with
  | [_] => constr:(@nil (Event upgrade.call))
  | ?x :: ?t' => let i := init_of t' in constr:(x :: i)
  end.

Ltac last_of t :=
  lazymatch t with
  | [?x] => x
  | _ :: ?t' => last_of t'
  end.

(** Exploring every answer of the environment to a small program. *)
Ltac wp_explore :=
  repeat (cbn;
          lazymatch goal with
          | |- forall _ : bool, _ => intros []
          | |- forall _ : unit, _ => intros []
          | |- forall _ : option _, _ => intros [?|]
          end).

(** Compositional proof of [always I p], following the shape of [p]. *)
Ltac always_step :=
  cbv beta zeta;
  lazymatch goal with
  | |- always _ (bind _ _) => apply always_bind; [|intros ?]
  | |- always _ (perform _) => apply always_perform; intros ?
  | |- always _ (Ret _) => apply always_Ret
  | |- always _ (for_range _ _) => apply always_for_range; intros ?
  | |- always _ (defer_Wrap _ _) => unfold defer_Wrap
  | |- always _ (check ?e _) => destruct e; cbn [check]
  | |- always _ (if ?b then _ else _) => destruct b
  | |- always _ (match ?x with _ => _ end) => destruct x
  | |- always _ (upgrade.logrus.Infof _) => unfold upgrade.logrus.Infof
  | |- always _ (upgrade.logrus.Warnf _) => unfold upgrade.logrus.Warnf
  | |- always _ (upgrade.logrus.Errorf _) => unfold upgrade.logrus.Errorf
  end.

(** ** API-version resolution: [doAPIVersionUpgrade] *)

Section api_version.
Import upgrade types cluster chain.
Context `{!types.consts}.
Implicit Types (env : Env call) (h : list (Event call)) (st : settings).

(** C2. A marker that is not empty and is neither the legacy tag v1beta1
    nor the tag v1beta2 makes [doAPIVersionUpgrade] return the error
    "unrecognized CRD API version ..." (under the context the function
    puts on all its errors), and the read of the marker is the only call it
    makes: nothing is written. *)
Theorem doAPIVersionUpgrade_unrecognized env h namespace (s : Setting) :
  env _ (Settings_Get namespace SettingNameCRDAPIVersion) h = (s, None) ->
  Value s <> "" ->
  Value s <> CRDAPIVersionV1beta1 ->
  Value s <> CRDAPIVersionV1beta2 ->
  run env (doAPIVersionUpgrade namespace) h =
    (Some (withMessage (errorString ("unrecognized CRD API version " +:+ Value s))
             "upgrade API version failed"),
     [Ev (Settings_Get namespace SettingNameCRDAPIVersion) (s, None)]).
Proof.
  intros Hget Hne H1 H2. unfold doAPIVersionUpgrade.
  rewrite run_defer_Wrap, run_bind, run_perform, Hget. cbn.
  rewrite !bool_decide_true by done. cbn.
  by rewrite run_Ret.
Qed.

(** C5. A marker equal to the current tag: the function logs that no
    upgrade is needed, makes no other call after the read, and returns
    nil. *)
Theorem doAPIVersionUpgrade_current env h namespace (s : Setting) :
  CurrentCRDAPIVersion = CRDAPIVersionV1beta2 ->
  env _ (Settings_Get namespace SettingNameCRDAPIVersion) h = (s, None) ->
  Value s = CurrentCRDAPIVersion ->
  run env (doAPIVersionUpgrade namespace) h =
    (None,
     [Ev (Settings_Get namespace SettingNameCRDAPIVersion) (s, None);
      Ev (Log InfoLevel "No API version upgrade is needed") tt]) /\
  forall st, settings_after st (run env (doAPIVersionUpgrade namespace) h).2 = st.
Proof.
  intros Hcur Hget Hs.
  assert (run env (doAPIVersionUpgrade namespace) h =
    (None,
     [Ev (Settings_Get namespace SettingNameCRDAPIVersion) (s, None);
      Ev (Log InfoLevel "No API version upgrade is needed") tt])) as ->.
  { unfold doAPIVersionUpgrade.
    rewrite run_defer_Wrap, run_bind, run_perform, Hget. cbn.
    rewrite (bool_decide_false (Value s <> CRDAPIVersionV1beta2)) by (intros []; congruence).
    rewrite andb_false_r, (bool_decide_true _ Hs).
    unfold logrus.Infof. repeat run_step. run_unit. done. }
  done.
Qed.

(** C3. The marker is read as empty or absent.  If the probe reports
    upgradable without error, a create of the marker with the current tag
    as its value is the next call and, the creation done, nil is returned.  If the probe
    reports not upgradable without error, nothing is written and nil is
    returned.  If the probe fails, its error is returned (under the context
    of the function). *)
Theorem doAPIVersionUpgrade_fresh_install env h namespace r :
  CurrentCRDAPIVersion <> "" ->
  let get := Settings_Get namespace SettingNameCRDAPIVersion in
  let probe := v1beta1_CanUpgrade namespace in
  let marker :=
    {| Name := SettingNameCRDAPIVersion; Value := CurrentCRDAPIVersion |} in
  let create := Settings_Create namespace marker in
  let h1 := h ++ [Ev get r] in
  env _ get h = r ->
  empty_or_absent r ->
  (env _ probe h1 = (true, None) ->
   exists answer rest,
     (run env (doAPIVersionUpgrade namespace) h).2 =
       [Ev get r; Ev probe (true, None); Ev create answer] ++ rest) /\
  (forall created,
     env _ probe h1 = (true, None) ->
     env _ create (h1 ++ [Ev probe (true, None)]) = (created, None) ->
     run env (doAPIVersionUpgrade namespace) h =
       (None,
        [Ev get r; Ev probe (true, None); Ev create (created, None);
         Ev (Log InfoLevel ("New " +:+ CurrentCRDAPIVersion +:+ " installation")) tt]) /\
     forall st,
       settings_after st (run env (doAPIVersionUpgrade namespace) h).2
         !! (namespace, SettingNameCRDAPIVersion) = Some CurrentCRDAPIVersion) /\
  (env _ probe h1 = (false, None) ->
     run env (doAPIVersionUpgrade namespace) h =
       (None, [Ev get r; Ev probe (false, None)]) /\
     forall st,
       settings_after st (run env (doAPIVersionUpgrade namespace) h).2 = st) /\
  (forall upgradable e,
     env _ probe h1 = (upgradable, Some e) ->
     run env (doAPIVersionUpgrade namespace) h =
       (Some (withMessage e "upgrade API version failed"),
        [Ev get r; Ev probe (upgradable, Some e)])).
Proof.
  intros Hcur get probe marker create h1 Hget Hr.
  unfold doAPIVersionUpgrade.
  rewrite run_defer_Wrap, run_bind, run_perform. fold get. rewrite Hget.
  destruct r as [s [e|]]; unfold empty_or_absent in Hr; cbn in Hr; cbn;
    rewrite Hr; cbn;
    rewrite (bool_decide_false (EmptyString <> EmptyString)) by (by intros []);
    cbn [andb];
    rewrite (bool_decide_false (EmptyString = CurrentCRDAPIVersion)) by done;
    rewrite (bool_decide_true (EmptyString = EmptyString)) by done;
    cbn; fold probe marker create h1.
  all: split;
    [intros Hp
    |split; [intros created Hp Hc|split; [intros Hp|intros upgradable e' Hp]]].
  all: rewrite !run_Vis, !Hp; cbn; rewrite ?run_Ret, ?run_Vis, ?Hc; cbn;
    rewrite ?run_Vis; cbn; rewrite ?run_Ret; cbn; run_unit; try done.
  all: first [by eexists _, _|split; [done|intros st; apply lookup_insert_eq]].
Qed.

(** C7. On the fresh-install path, a create of the marker that fails with
    "already exists" counts as done: the function logs the new installation
    and returns nil.  Any other failure of the create is returned wrapped
    with "cannot create CRDAPIVersionSetting". *)
Theorem doAPIVersionUpgrade_create_already_exists env h namespace r created e :
  CurrentCRDAPIVersion <> "" ->
  let get := Settings_Get namespace SettingNameCRDAPIVersion in
  let probe := v1beta1_CanUpgrade namespace in
  let marker :=
    {| Name := SettingNameCRDAPIVersion; Value := CurrentCRDAPIVersion |} in
  let create := Settings_Create namespace marker in
  let h1 := h ++ [Ev get r] in
  env _ get h = r ->
  empty_or_absent r ->
  env _ probe h1 = (true, None) ->
  env _ create (h1 ++ [Ev probe (true, None)]) = (created, Some e) ->
  run env (doAPIVersionUpgrade namespace) h =
    if apierrors.IsAlreadyExists e
    then (None,
          [Ev get r; Ev probe (true, None); Ev create (created, Some e);
           Ev (Log InfoLevel ("New " +:+ CurrentCRDAPIVersion +:+ " installation")) tt])
    else (Some (withMessage
                  (withMessage e "cannot create CRDAPIVersionSetting")
                  "upgrade API version failed"),
          [Ev get r; Ev probe (true, None); Ev create (created, Some e)]).
Proof.
  intros Hcur get probe marker create h1 Hget Hr Hp Hc.
  unfold doAPIVersionUpgrade.
  rewrite run_defer_Wrap, run_bind, run_perform. fold get. rewrite Hget.
  destruct r as [s [e'|]]; unfold empty_or_absent in Hr; cbn in Hr; cbn;
    rewrite Hr; cbn;
    rewrite (bool_decide_false (EmptyString <> EmptyString)) by (by intros []);
    cbn [andb];
    rewrite (bool_decide_false (EmptyString = CurrentCRDAPIVersion)) by done;
    rewrite (bool_decide_true (EmptyString = EmptyString)) by done;
    cbn; fold probe marker create h1.
  all: rewrite !run_Vis, !Hp; cbn; rewrite !run_Vis, !Hc; cbn.
  all: destruct (apierrors.IsAlreadyExists e); cbn;
    rewrite ?run_Vis; cbn; rewrite ?run_Ret; cbn; run_unit; done.
Qed.

(** C4. A marker holding the legacy tag v1beta1: the conversion of the
    custom resources is called first and the marker is updated, to the
    current tag, only after the conversion returned nil.  A failing
    conversion is returned and no update is made; a failing update is
    returned wrapped with "cannot finish CRD API upgrade by setting the
    CRDAPIVersionSetting to ...". *)
Theorem doAPIVersionUpgrade_legacy env h namespace (s : Setting) :
  CurrentCRDAPIVersion = CRDAPIVersionV1beta2 ->
  CRDAPIVersionV1beta1 <> "" ->
  CRDAPIVersionV1beta1 <> CurrentCRDAPIVersion ->
  let get := Settings_Get namespace SettingNameCRDAPIVersion in
  let announce :=
    Log InfoLevel ("Upgrading from " +:+ CRDAPIVersionV1beta1 +:+ " to "
                   +:+ CurrentCRDAPIVersion) in
  let convert := v1beta1_UpgradeCRFromV1beta1ToV1beta2 namespace in
  let marker := {| Name := Name s; Value := CurrentCRDAPIVersion |} in
  let update := Settings_Update namespace marker in
  let h2 := (h ++ [Ev get (s, None)]) ++ [Ev announce tt] in
  env _ get h = (s, None) ->
  Value s = CRDAPIVersionV1beta1 ->
  (forall e,
     env _ convert h2 = Some e ->
     run env (doAPIVersionUpgrade namespace) h =
       (Some (withMessage e "upgrade API version failed"),
        [Ev get (s, None); Ev announce tt; Ev convert (Some e)])) /\
  (forall updated,
     env _ convert h2 = None ->
     env _ update (h2 ++ [Ev convert None]) = (updated, None) ->
     run env (doAPIVersionUpgrade namespace) h =
       (None,
        [Ev get (s, None); Ev announce tt; Ev convert None;
         Ev update (updated, None);
         Ev (Log InfoLevel ("CRD has been upgraded to " +:+ CurrentCRDAPIVersion)) tt])) /\
  (forall updated e,
     env _ convert h2 = None ->
     env _ update (h2 ++ [Ev convert None]) = (updated, Some e) ->
     run env (doAPIVersionUpgrade namespace) h =
       (Some (withMessage
                (withMessage e
                   ("cannot finish CRD API upgrade by setting the CRDAPIVersionSetting to "
                    +:+ CurrentCRDAPIVersion))
                "upgrade API version failed"),
        [Ev get (s, None); Ev announce tt; Ev convert None;
         Ev update (updated, Some e)])).
Proof.
  intros Hcur Hne Hlegacy get announce convert marker update h2 Hget Hs.
  unfold doAPIVersionUpgrade.
  rewrite run_defer_Wrap, run_bind, run_perform. fold get. rewrite Hget. cbn.
  rewrite Hs, <-Hcur.
  rewrite (bool_decide_false (CRDAPIVersionV1beta1 <> CRDAPIVersionV1beta1))
    by (by intros []).
  rewrite andb_false_r; cbn [andb].
  rewrite (bool_decide_false (CRDAPIVersionV1beta1 = CurrentCRDAPIVersion)) by done.
  rewrite (bool_decide_false (CRDAPIVersionV1beta1 = EmptyString)) by done.
  rewrite (bool_decide_true (CRDAPIVersionV1beta1 = CRDAPIVersionV1beta1)) by done.
  cbn. fold announce convert marker update.
  rewrite run_Vis. cbn. destruct (env unit announce _). fold h2.
  split; [intros e Hc|split; [intros updated Hc Hu|intros updated e Hc Hu]].
  all: rewrite !run_Vis, !Hc; cbn; rewrite ?run_Ret, ?run_Vis, ?Hu; cbn;
    rewrite ?run_Vis; cbn; rewrite ?run_Ret; cbn; run_unit; done.
Qed.
End api_version.

(** ** The chain: order of the phases, first error, returned value *)

Section chain_facts.
Import upgrade types cluster chain.
Context `{!types.consts}.
Implicit Types (env : Env call) (h t : list (Event call)).

(** The closure body written in the source is the version resolution
    followed by the declared steps run in order. *)
Lemma phases_in_order namespace :
  eqp (phases namespace)
      (err <- doAPIVersionUpgrade namespace ;;
       check err (in_order namespace declared_order)).
Proof.
  unfold phases. apply eqp_bind. intros [e|]; cbn; [apply eqp_refl|].
  repeat (constructor; intros [?|]; cbn); constructor.
Qed.

(** A run of steps in order: the calls are those of an initial part of the
    steps, all answered nil, then at most one call answered with an
    error, which is returned under the name of its phase. *)
Lemma in_order_run env namespace steps h :
  exists finished failing,
    (run env (in_order namespace steps) h).2 =
      map (completed namespace) finished ++ failing /\
    match (run env (in_order namespace steps) h).1 with
    | None => finished = steps /\ failing = []
    | Some e =>
        exists u phase cause rest,
          steps = finished ++ (u, phase) :: rest /\
          failing = [Ev (Upgrade_ u namespace) (Some cause)] /\
          e = withMessage cause phase
    end.
Proof.
  revert h. induction steps as [|[u phase] steps IH]; intros h; cbn.
  - exists [], []. by rewrite run_Ret.
  - rewrite run_Vis.
    destruct (env _ (Upgrade_ u namespace) h) as [cause|]; cbn.
    + exists [], [Ev (Upgrade_ u namespace) (Some cause)].
      rewrite run_Ret; cbn. split; [done|]. by exists u, phase, cause, steps.
    + destruct (IH (h ++ [Ev (Upgrade_ u namespace) None]))
        as (finished & failing & Ht & Hres).
      exists ((u, phase) :: finished), failing. rewrite Ht; cbn. split; [done|].
      destruct (run _ _ _).1 as [e|].
      * destruct Hres as (u' & phase' & cause & rest & -> & -> & ->).
        by exists u', phase', cause, rest.
      * by destruct Hres as [-> ->].
Qed.

Lemma doAPIVersionUpgrade_context env namespace h e :
  (run env (doAPIVersionUpgrade namespace) h).1 = Some e ->
  exists cause, e = withMessage cause "upgrade API version failed".
Proof.
  unfold doAPIVersionUpgrade. rewrite run_defer_Wrap; cbn.
  destruct (run _ _ _).1 as [cause|]; cbn; [|done].
  intros [= <-]. by exists cause.
Qed.

Lemma doAPIVersionUpgrade_no_upgrader namespace :
  always (fun ev => upgrader_call ev = false) (doAPIVersionUpgrade namespace).
Proof. unfold doAPIVersionUpgrade. repeat always_step; done. Qed.

(** The gate around the closure: [upgrade] acquires the lease, logs,
    runs the phases, logs the outcome, and returns what they left in
    [err]. *)
Lemma run_upgrade env h currentNodeID namespace :
  exists observed logs,
    let t_pre :=
      Ev (lease_call currentNodeID namespace) observed
      :: logs ++ [Ev (Log InfoLevel "Start upgrading") tt] in
    let body := run env (phases namespace) (h ++ t_pre) in
    Forall (fun ev => gate_or_phase ev = false) logs /\
    run env (upgrade currentNodeID namespace) h =
      (body.1,
       t_pre ++ body.2 ++
       [Ev (match body.1 with
            | Some e => Log ErrorLevel ("Upgrade failed: " +:+ Error e)
            | None => Log InfoLevel "Finish upgrading"
            end) tt;
        Ev cancel tt;
        Ev (Log InfoLevel ("Upgrade leader lost: " +:+ currentNodeID)) tt;
        Ev cancel tt]).
Proof.
  unfold upgrade, RunOrDie. cbv zeta.
  cbn [OnStartedLeading OnStoppedLeading OnNewLeader Callbacks Lock
       ReleaseOnCancel LeaseDuration RenewDeadline RetryPeriod].
  change (AcquireLease _ _ _ _ _) with (lease_call currentNodeID namespace).
  set (lock := lease_call currentNodeID namespace).
  match goal with |- context [for_range _ ?f] => set (tell := f) end.
  set (observed := env _ lock h).
  set (logs := (run env (for_range observed tell)
                  (h ++ [Ev lock observed])).2).
  exists observed, logs. split.
  { apply always_run. unfold tell. repeat always_step; done. }
  match goal with |- context [run env (phases namespace) ?h'] => set (h2 := h') end.
  etrans; [run_deriv|].
  fold observed. fold logs. run_unit.
  rewrite <-!app_assoc; cbn [app]. fold h2.
  destruct (run env (phases namespace) h2) as [[e|] t];
    cbn [fst snd]; unfold logrus.Errorf, logrus.Infof;
    rewrite run_perform; cbn [fst snd app]; run_unit;
    rewrite <-?app_assoc; reflexivity.
Qed.

(** C1. Inside its tenure the coordinator resolves the API version first;
    an error there is what the run returns, under the name of that phase,
    and no upgrader is called.  Otherwise the upgraders are called in the
    declared order (custom resources v070to080 ... v122to123, then pods,
    then services, then workload controllers): the calls made are an
    initial part of that order, all answered nil, followed by at most one
    failing call.  That first error ends the run, and is returned wrapped
    with the name of its phase; [upgrade] returns it to its caller. *)
Theorem upgrade_phases_in_order env h currentNodeID namespace :
  exists t_pre t_post,
    let api := run env (doAPIVersionUpgrade namespace) (h ++ t_pre) in
    let res := (run env (upgrade currentNodeID namespace) h).1 in
    Forall (fun ev => upgrader_call ev = false) (t_pre ++ api.2 ++ t_post) /\
    match api.1 with
    | Some e =>
        res = Some e /\
        (run env (upgrade currentNodeID namespace) h).2 = t_pre ++ api.2 ++ t_post /\
        exists cause, e = withMessage cause "upgrade API version failed"
    | None =>
        exists finished failing,
          (run env (upgrade currentNodeID namespace) h).2 =
            t_pre ++ api.2 ++ map (completed namespace) finished ++ failing ++ t_post /\
          match res with
          | None => finished = declared_order /\ failing = []
          | Some e =>
              exists u phase cause rest,
                declared_order = finished ++ (u, phase) :: rest /\
                failing = [Ev (Upgrade_ u namespace) (Some cause)] /\
                e = withMessage cause phase
          end
    end.
Proof.
  destruct (run_upgrade env h currentNodeID namespace)
    as (observed & logs & Hlogs & Hrun).
  cbv zeta in Hrun.
  set (t_pre := Ev (lease_call currentNodeID namespace) observed :: logs ++ _) in *.
  rewrite (eqp_run _ _ _ _ (phases_in_order namespace)), run_bind in Hrun.
  cbn [fst snd] in Hrun.
  pose proof (doAPIVersionUpgrade_context env namespace (h ++ t_pre)) as Hctx.
  pose proof (always_run _ env _ (h ++ t_pre)
                (doAPIVersionUpgrade_no_upgrader namespace)) as Hapi.
  assert (Forall (fun ev => upgrader_call ev = false) t_pre) as Hpre.
  { constructor; [done|]. apply Forall_app. split; [|by repeat constructor].
    eapply Forall_impl; [apply Hlogs|]. intros [R c r]; by destruct c. }
  destruct (run env (doAPIVersionUpgrade namespace) (h ++ t_pre))
    as [[e|] t_api] eqn:Hrun_api; cbn [fst snd check] in *.
  - rewrite run_Ret in Hrun; cbn [fst snd] in Hrun. rewrite app_nil_r in Hrun.
    exists t_pre,
      [Ev (Log ErrorLevel ("Upgrade failed: " +:+ Error e)) tt;
       Ev cancel tt;
       Ev (Log InfoLevel ("Upgrade leader lost: " +:+ currentNodeID)) tt;
       Ev cancel tt].
    cbv zeta. rewrite Hrun_api, Hrun; cbn [fst snd].
    split; [|split; [done|split; [done|by apply Hctx]]].
    rewrite !Forall_app. split; [done|split; [done|]]. by repeat constructor.
  - destruct (in_order_run env namespace declared_order ((h ++ t_pre) ++ t_api))
      as (finished & failing & Ht & Hres).
    rewrite Ht in Hrun.
    set (res := (run env (in_order namespace declared_order) _).1) in *.
    exists t_pre,
      [Ev (match res with
           | Some e => Log ErrorLevel ("Upgrade failed: " +:+ Error e)
           | None => Log InfoLevel "Finish upgrading"
           end) tt;
       Ev cancel tt;
       Ev (Log InfoLevel ("Upgrade leader lost: " +:+ currentNodeID)) tt;
       Ev cancel tt].
    cbv zeta. rewrite Hrun_api, Hrun; cbn [fst snd].
    split.
    + rewrite !Forall_app. split; [done|split; [done|]].
      by destruct res; repeat constructor.
    + exists finished, failing. split; [by rewrite <-!app_assoc|done].
Qed.

(** What the closure leaves in [err] is the first error of its five
    phases, run in the order of the source. *)
Lemma phases_first_error env namespace h :
  (run env (phases namespace) h).1 =
    first_error env
      [doAPIVersionUpgrade namespace; doCRUpgrade namespace;
       doPodsUpgrade namespace; doServicesUpgrade namespace;
       doDeploymentAndDaemonSetUpgrade namespace] h.
Proof.
  unfold phases. cbn [first_error].
  rewrite run_bind; cbn [fst snd].
  destruct (run env (doAPIVersionUpgrade namespace) h) as [[e|] t1];
    cbn [fst snd check]; [by rewrite run_Ret|].
  rewrite run_bind; cbn [fst snd].
  destruct (run env (doCRUpgrade namespace) (h ++ t1)) as [[e|] t2];
    cbn [fst snd check]; [by rewrite run_Ret|].
  rewrite run_bind; cbn [fst snd].
  destruct (run env (doPodsUpgrade namespace) ((h ++ t1) ++ t2)) as [[e|] t3];
    cbn [fst snd check]; [by rewrite run_Ret|].
  rewrite run_bind; cbn [fst snd].
  destruct (run env (doServicesUpgrade namespace) (((h ++ t1) ++ t2) ++ t3))
    as [[e|] t4]; cbn [fst snd check]; [by rewrite run_Ret|].
  rewrite run_bind; cbn [fst snd].
  destruct (run env (doDeploymentAndDaemonSetUpgrade namespace)
              ((((h ++ t1) ++ t2) ++ t3) ++ t4))
    as [[e|] t5]; cbn [fst snd check]; by rewrite run_Ret.
Qed.

(** C9. [upgrade] returns the value the closure assigned to [err]: nil
    exactly when each of the five phases, run in order during the tenure,
    returned nil, and otherwise the first error one of them returned. *)
Theorem upgrade_returns_first_error env h currentNodeID namespace :
  exists observed logs t_post,
    let t_pre :=
      Ev (lease_call currentNodeID namespace) observed
      :: logs ++ [Ev (Log InfoLevel "Start upgrading") tt] in
    let chain :=
      [doAPIVersionUpgrade namespace; doCRUpgrade namespace;
       doPodsUpgrade namespace; doServicesUpgrade namespace;
       doDeploymentAndDaemonSetUpgrade namespace] in
    let body := run env (phases namespace) (h ++ t_pre) in
    let returned := run env (upgrade currentNodeID namespace) h in
    Forall (fun ev => gate_or_phase ev = false) (logs ++ t_post) /\
    returned.2 = t_pre ++ body.2 ++ t_post /\
    returned.1 = body.1 /\
    returned.1 = first_error env chain (h ++ t_pre) /\
    (returned.1 = None <-> all_completed env chain (h ++ t_pre)).
Proof.
  destruct (run_upgrade env h currentNodeID namespace)
    as (observed & logs & Hlogs & Hrun).
  cbv zeta in Hrun.
  eexists observed, logs, _. cbv zeta. rewrite Hrun; cbn [fst snd].
  split; [|split; [reflexivity|split; [reflexivity|]]].
  - apply Forall_app. split; [done|].
    by destruct (run env (phases namespace) _).1; repeat constructor.
  - by rewrite <-first_error_None, <-phases_first_error.
Qed.

(** ** The entry point: [Upgrade] *)

Lemma upgrade_no_local_node currentNodeID namespace :
  always (fun ev => local_node_call ev = false) (upgrade currentNodeID namespace).
Proof.
  unfold upgrade, RunOrDie, phases, doAPIVersionUpgrade, doCRUpgrade,
    doPodsUpgrade, doServicesUpgrade, doDeploymentAndDaemonSetUpgrade.
  cbn [OnStartedLeading OnStoppedLeading OnNewLeader Callbacks Lock
       ReleaseOnCancel LeaseDuration RenewDeadline RetryPeriod].
  repeat always_step; done.
Qed.
End chain_facts.

Section entry_point.
Import upgrade types cluster chain.
Context `{!types.consts}.
Implicit Types (env : Env call) (h t : list (Event call)).

Lemma run_Upgrade env h kubeconfigPath currentNodeID :
  exists boot,
    Forall (fun ev => gate_or_phase ev = false /\ local_node_call ev = false) boot /\
    ((exists e, run env (Upgrade kubeconfigPath currentNodeID) h = (Some e, boot)) \/
     (exists e,
        run env (Upgrade kubeconfigPath currentNodeID) h =
          (Some (withMessage e "upgrade local node failed"),
           boot ++ [Ev v070to080_UpgradeLocalNode (Some e)])) \/
     (exists namespace h',
        run env (Upgrade kubeconfigPath currentNodeID) h =
          ((run env (upgrade currentNodeID namespace) h').1,
           boot ++ Ev v070to080_UpgradeLocalNode None
             :: (run env (upgrade currentNodeID namespace) h').2))).
Proof.
  destruct (run env (Upgrade kubeconfigPath currentNodeID) h) as [res t] eqn:Hrun.
  unfold Upgrade, upgradeLocalNode in Hrun.
  run_inv Hrun.
  all: cbn [app errors.Wrap].
  all: match goal with
       | |- exists boot, _ /\ ((exists e, (_, ?t) = _) \/ _) =>
           let b := before_local_node t in exists b
       end.
  all: split; [by repeat constructor|].
  all: first
    [ left; eexists; reflexivity
    | right; left; eexists; reflexivity
    | right; right; eexists _, _;
      match goal with
      | Hup : run _ (upgrade _ _) _ = _ |- _ => rewrite Hup
      end; cbn [fst snd app]; by rewrite ?app_nil_r ].
Qed.

Lemma run_Upgrade_cases env h kubeconfigPath currentNodeID :
  (exists t1 ev e message,
     observe.bootstrap_failure ev = Some (e, message) /\
     run env (Upgrade kubeconfigPath currentNodeID) h =
       (Some (withMessage e message), t1 ++ [ev])) \/
  (exists boot,
     Forall (fun ev => gate_or_phase ev = false /\ local_node_call ev = false) boot /\
     ((exists e,
         run env (Upgrade kubeconfigPath currentNodeID) h =
           (Some (withMessage e "upgrade local node failed"),
            boot ++ [Ev v070to080_UpgradeLocalNode (Some e)])) \/
      (exists namespace,
         let h' := h ++ boot ++ [Ev v070to080_UpgradeLocalNode None] in
         run env (Upgrade kubeconfigPath currentNodeID) h =
           ((run env (upgrade currentNodeID namespace) h').1,
            boot ++ Ev v070to080_UpgradeLocalNode None
              :: (run env (upgrade currentNodeID namespace) h').2)))).
Proof.
  destruct (run env (Upgrade kubeconfigPath currentNodeID) h) as [res t] eqn:Hrun.
  unfold Upgrade, upgradeLocalNode in Hrun.
  run_inv Hrun.
  all: cbn [app errors.Wrap].
  all: first
    [ match goal with
      | Hup : run _ (upgrade _ ?namespace) _ = (_, _) |- _ \/ ?G =>
          right;
          match goal with
          | |- exists boot, _ /\ ((exists e, (_, ?t) = _) \/ _) =>
              let b := before_local_node t in exists b
          end;
          split; [by repeat constructor|];
          right; exists namespace; cbv zeta;
          rewrite <-?app_assoc in Hup; cbn [app] in Hup;
          rewrite ?app_nil_r in Hup;
          cbn [app]; rewrite Hup; cbn [fst snd]; by rewrite ?app_nil_r
      end
    | right;
      match goal with
      | |- exists boot, _ /\ ((exists e, (_, ?t) = _) \/ _) =>
          let b := before_local_node t in exists b
      end;
      split; [by repeat constructor|];
      left; eexists; reflexivity
    | left;
      match goal with
      | |- exists t1 ev e message, _ /\ (_, ?t) = _ =>
          let i := init_of t in
          let x := last_of t in
          exists i, x
      end;
      eexists _, _; split; reflexivity ].
Qed.

(** C10. [Upgrade] runs the local-node step on every replica, outside the
    gate.  Unless one of the four bootstrap steps before it has failed
    (which ends the run), the step is called: the calls before it are
    neither calls of the step nor calls for the lease nor calls of a phase,
    and either the step fails, it is the last call of the run and its
    error is returned wrapped with "upgrade local node failed", or it
    returns nil and the run goes on with [upgrade], whose result is the
    result.  So whenever [Upgrade] reaches for the lease, the local-node
    step has been called before and has returned nil; and when the step
    fails, the run contains no call for the lease and no call of a phase
    of the chain. *)
Theorem Upgrade_local_node_first env h kubeconfigPath currentNodeID :
  let returned := run env (Upgrade kubeconfigPath currentNodeID) h in
  ((exists t1 ev e message,
      observe.bootstrap_failure ev = Some (e, message) /\
      returned.2 = t1 ++ [ev]) \/
   (exists boot answer,
      Forall (fun ev => gate_or_phase ev = false /\ local_node_call ev = false)
        boot /\
      match answer with
      | Some e =>
          returned = (Some (withMessage e "upgrade local node failed"),
                      boot ++ [Ev v070to080_UpgradeLocalNode (Some e)])
      | None =>
          exists namespace,
            let h' := h ++ boot ++ [Ev v070to080_UpgradeLocalNode None] in
            returned =
              ((run env (upgrade currentNodeID namespace) h').1,
               boot ++ Ev v070to080_UpgradeLocalNode None
                 :: (run env (upgrade currentNodeID namespace) h').2)
      end)) /\
  (forall t1 ev t2,
     returned.2 = t1 ++ ev :: t2 ->
     acquires ev = true ->
     Ev v070to080_UpgradeLocalNode None ∈ t1) /\
  (forall t1 e t2,
     returned.2 = t1 ++ Ev v070to080_UpgradeLocalNode (Some e) :: t2 ->
     returned.1 = Some (withMessage e "upgrade local node failed") /\
     t2 = [] /\
     Forall (fun ev => gate_or_phase ev = false) returned.2).
Proof.
  cbv zeta. split.
  { destruct (run_Upgrade_cases env h kubeconfigPath currentNodeID)
      as [(t1 & ev & e & message & Hev & ->)
         |(boot & Hboot & [[e ->]|[namespace Hrun]])].
    - left. by exists t1, ev, e, message.
    - right. by exists boot, (Some e).
    - right. exists boot, None. split; [done|]. by exists namespace. }
  destruct (run_Upgrade env h kubeconfigPath currentNodeID)
    as (boot & Hboot & Hcases).
  assert (Forall (fun ev => gate_or_phase ev = false) boot) as Hgate.
  { eapply Forall_impl; [apply Hboot|]. by intros ? [? _]. }
  assert (Forall (fun ev => acquires ev = false) boot) as Hacq.
  { eapply Forall_impl; [apply Hgate|]. intros [R c r]; by destruct c. }
  assert (Forall (fun ev => local_node_call ev = false) boot) as Hlocal.
  { eapply Forall_impl; [apply Hboot|]. by intros ? [_ ?]. }
  destruct Hcases as [[e' ->]|[[e' ->]|(namespace & h' & ->)]]; cbn [fst snd].
  - split.
    + intros t1 ev t2 -> Hev.
      apply Forall_app in Hacq as [_ Hacq]. inversion Hacq. congruence.
    + intros t1 e t2 ->.
      apply Forall_app in Hlocal as [_ Hlocal]. by inversion Hlocal.
  - assert (Forall (fun ev => gate_or_phase ev = false)
              (boot ++ [Ev v070to080_UpgradeLocalNode (Some e')])) as Hall.
    { apply Forall_app. split; [done|by repeat constructor]. }
    split.
    + intros t1 ev t2 Ht Hev.
      destruct (elem_after_prefix acquires _ _ _ _ ev _ Hacq Hev Ht)
        as [(_ & -> & _)|(m & _ & Hm)]; [done|by destruct m].
    + intros t1 e t2 Ht.
      destruct (elem_after_prefix local_node_call _ _ _ _
                  (Ev v070to080_UpgradeLocalNode (Some e)) _ Hlocal eq_refl Ht)
        as [(-> & Hev & ->)|(m & _ & Hm)]; [|by destruct m].
      apply (f_equal local_node_answer) in Hev; cbn in Hev.
      by injection Hev as ->.
  - pose proof (always_run _ env _ h'
                  (upgrade_no_local_node currentNodeID namespace)) as Hup.
    split.
    + intros t1 ev t2 Ht Hev.
      destruct (elem_after_prefix acquires _ _ _ _ ev _ Hacq Hev Ht)
        as [(_ & -> & _)|(m & -> & _)]; [done|].
      apply elem_of_app. right. by left.
    + intros t1 e t2 Ht. exfalso.
      destruct (elem_after_prefix local_node_call _ _ _ _
                  (Ev v070to080_UpgradeLocalNode (Some e)) _ Hlocal eq_refl Ht)
        as [(_ & Hev & _)|(m & _ & Hm)].
      * by apply (f_equal local_node_answer) in Hev.
      * rewrite Hm in Hup. apply Forall_app in Hup as [_ Hup]. by inversion Hup.
Qed.
End entry_point.

(** ** The marker across runs *)

Section marker.
Import upgrade types cluster chain.
Context `{!types.consts}.
Implicit Types (env : Env call) (h t : list (Event call)) (st : settings).

Lemma Upgrade_writes_current kubeconfigPath currentNodeID :
  CurrentCRDAPIVersion = CRDAPIVersionV1beta2 ->
  always writes_current (Upgrade kubeconfigPath currentNodeID).
Proof.
  intros Hcur.
  unfold Upgrade, upgradeLocalNode, upgrade.upgrade, RunOrDie, phases,
    doAPIVersionUpgrade, doCRUpgrade, doPodsUpgrade, doServicesUpgrade,
    doDeploymentAndDaemonSetUpgrade.
  cbn [OnStartedLeading OnStoppedLeading OnNewLeader Callbacks Lock
       ReleaseOnCancel LeaseDuration RenewDeadline RetryPeriod].
  repeat always_step; intros ? [= <-]; done.
Qed.

Lemma settings_after_writes st t key :
  Forall writes_current t ->
  settings_after st t !! key = st !! key \/
  settings_after st t !! key = Some CurrentCRDAPIVersion.
Proof.
  intros Ht. revert st. induction Ht as [|[R c r] t Hev _ IH]; intros st.
  - by left.
  - change (settings_after st (Ev c r :: t))
      with (settings_after (apply st (Ev c r)) t).
    assert (apply st (Ev c r) !! key = st !! key \/
            apply st (Ev c r) !! key = Some CurrentCRDAPIVersion) as Hstep.
    { destruct c; cbn; try (by left); destruct (is_error r.2); try (by left).
      all: rewrite lookup_insert; case_decide; [right|by left].
      all: by rewrite (Hev s eq_refl). }
    destruct (IH (apply st (Ev c r))) as [Heq|Heq]; rewrite Heq; [done|by right].
Qed.

Lemma campaign_lookup st runs key j sj :
  CurrentCRDAPIVersion = CRDAPIVersionV1beta2 ->
  campaign st runs !! j = Some sj ->
  sj !! key = st !! key \/ sj !! key = Some CurrentCRDAPIVersion.
Proof.
  intros Hcur. revert st j. induction runs as [|a runs IH]; intros st [|j]; cbn.
  - intros [= <-]. by left.
  - done.
  - intros [= <-]. by left.
  - intros Hj. apply IH in Hj as [Hj|Hj]; [|by right].
    rewrite Hj. apply settings_after_writes, always_run.
    by apply Upgrade_writes_current.
Qed.

Lemma rank_current_max marker :
  rank marker <= rank (Some CurrentCRDAPIVersion).
Proof.
  unfold rank. rewrite (bool_decide_true (CurrentCRDAPIVersion = _)) by done.
  destruct marker; repeat case_bool_decide; lia.
Qed.

(** C6. Every write of the marker the coordinator makes, the create and the
    update alike, writes the current tag.  So over any sequence of runs
    the marker, at each step, keeps its value or becomes the current tag:
    it moves along empty, legacy, current and never back. *)
Theorem marker_never_reverts :
  CurrentCRDAPIVersion = CRDAPIVersionV1beta2 ->
  (forall env h kubeconfigPath currentNodeID ev s,
     ev ∈ (run env (Upgrade kubeconfigPath currentNodeID) h).2 ->
     written ev = Some s ->
     Value s = CurrentCRDAPIVersion) /\
  (forall st runs key i j si sj,
     i <= j ->
     campaign st runs !! i = Some si ->
     campaign st runs !! j = Some sj ->
     (sj !! key = si !! key \/ sj !! key = Some CurrentCRDAPIVersion) /\
     rank (si !! key) <= rank (sj !! key)).
Proof.
  intros Hcur. split.
  - intros env h kubeconfigPath currentNodeID ev s Hev.
    pose proof (always_run _ env _ h
                  (Upgrade_writes_current kubeconfigPath currentNodeID Hcur)) as Hall.
    rewrite Forall_forall in Hall. by apply Hall.
  - assert (forall st runs key i j si sj,
              i <= j ->
              campaign st runs !! i = Some si ->
              campaign st runs !! j = Some sj ->
              sj !! key = si !! key \/ sj !! key = Some CurrentCRDAPIVersion)
      as Hstep.
    { intros st runs key. revert st.
      induction runs as [|a runs IH]; intros st [|i] [|j] si sj Hij; cbn;
        try lia; try done.
      - intros [= <-] [= <-]. by left.
      - intros [= <-] [= <-]. by left.
      - intros [= <-] Hj. by apply (campaign_lookup _ (a :: runs) key (S j)).
      - apply IH. lia. }
    intros st runs key i j si sj Hij Hi Hj.
    destruct (Hstep st runs key i j si sj Hij Hi Hj) as [Heq|Heq].
    + split; [by left|by rewrite Heq].
    + split; [by right|]. rewrite Heq. apply rank_current_max.
Qed.
End marker.

(** ** The managed-object sets of [csi] *)

Section object_sets.
Import csi.
Implicit Types (env : Env call) (h t : list (Event call)).

Lemma AttacherDeployment_Cleanup_best_effort (a : AttacherDeployment.t) :
  wp (AttacherDeployment.Cleanup a)
     (fun _ t => best_effort "attacher" (AttacherDeployment.service a)
                   (AttacherDeployment.deployment a) t).
Proof.
  unfold AttacherDeployment.Cleanup, Wait, RunAsync, warn_on_error.
  wp_explore; cbn; unfold best_effort; cbn.
  all: split; [first [done|apply perm_swap]|].
  all: split; [first [done|apply perm_swap]|by repeat constructor].
Qed.

Lemma ProvisionerDeployment_Cleanup_best_effort (p : ProvisionerDeployment.t) :
  wp (ProvisionerDeployment.Cleanup p)
     (fun _ t => best_effort "provisioner" (ProvisionerDeployment.service p)
                   (ProvisionerDeployment.deployment p) t).
Proof.
  unfold ProvisionerDeployment.Cleanup, Wait, RunAsync, warn_on_error.
  wp_explore; cbn; unfold best_effort; cbn.
  all: split; [first [done|apply perm_swap]|].
  all: split; [first [done|apply perm_swap]|by repeat constructor].
Qed.

(** C8. [Deploy] of the attacher set and of the provisioner set reconciles
    the service first and the deployment only if that succeeded; the first
    error is returned and nothing is undone.  [Cleanup] of either set
    returns no error: it runs the two cleanups as concurrent tasks, in
    either order, returns when both are done, and a failing cleanup is
    only logged and does not keep the other from running. *)
Theorem deploy_fail_fast_cleanup_best_effort :
  (forall env h (a : AttacherDeployment.t),
     fail_fast env h (AttacherDeployment.service a)
       (AttacherDeployment.deployment a)
       (run env (AttacherDeployment.Deploy a) h)) /\
  (forall env h (p : ProvisionerDeployment.t),
     fail_fast env h (ProvisionerDeployment.service p)
       (ProvisionerDeployment.deployment p)
       (run env (ProvisionerDeployment.Deploy p) h)) /\
  (forall env h (a : AttacherDeployment.t),
     best_effort "attacher" (AttacherDeployment.service a)
       (AttacherDeployment.deployment a)
       (run env (AttacherDeployment.Cleanup a) h).2) /\
  (forall env h (p : ProvisionerDeployment.t),
     best_effort "provisioner" (ProvisionerDeployment.service p)
       (ProvisionerDeployment.deployment p)
       (run env (ProvisionerDeployment.Cleanup p) h).2) /\
  (forall (a : AttacherDeployment.t),
     cleaned (run (always_pick true) (AttacherDeployment.Cleanup a) []).2 =
       [Service (AttacherDeployment.service a);
        Deployment (AttacherDeployment.deployment a)] /\
     cleaned (run (always_pick false) (AttacherDeployment.Cleanup a) []).2 =
       [Deployment (AttacherDeployment.deployment a);
        Service (AttacherDeployment.service a)]) /\
  (forall (p : ProvisionerDeployment.t),
     cleaned (run (always_pick true) (ProvisionerDeployment.Cleanup p) []).2 =
       [Service (ProvisionerDeployment.service p);
        Deployment (ProvisionerDeployment.deployment p)] /\
     cleaned (run (always_pick false) (ProvisionerDeployment.Cleanup p) []).2 =
       [Deployment (ProvisionerDeployment.deployment p);
        Service (ProvisionerDeployment.service p)]).
Proof.
  split; [|split; [|split; [|split; [|split]]]].
  - intros env h a. unfold fail_fast, AttacherDeployment.Deploy.
    rewrite run_bind, run_perform; cbn [fst snd].
    destruct (env _ _ h) as [e|]; cbn [check].
    + by rewrite run_Ret.
    + by rewrite run_perform.
  - intros env h p. unfold fail_fast, ProvisionerDeployment.Deploy.
    rewrite run_bind, run_perform; cbn [fst snd].
    destruct (env _ _ h) as [e|]; cbn [check].
    + by rewrite run_Ret.
    + by rewrite run_perform.
  - intros env h a.
    apply (wp_run env _ _ h (AttacherDeployment_Cleanup_best_effort a)).
  - intros env h p.
    apply (wp_run env _ _ h (ProvisionerDeployment_Cleanup_best_effort p)).
  - by intros a.
  - by intros p.
Qed.
End object_sets.

(** ** The properties at work on concrete clusters *)

Section concrete.
Import upgrade types cluster chain.

Example fresh_install_runs_whole_chain :
  (run (env fresh) (@Upgrade longhorn "/etc/kubeconfig" "node-a") []).1 = None /\
  settings_after ∅
    (run (env fresh) (@Upgrade longhorn "/etc/kubeconfig" "node-a") []).2
    !! marker_key = Some "longhorn.io/v1beta2".
Proof. by vm_compute. Qed.

Example broken_pods_stops_the_chain :
  (run (env broken_pods) (@Upgrade longhorn "/etc/kubeconfig" "node-a") []).1 =
    Some (withMessage (errorString "pod not ready") "upgrade Pods failed") /\
  filter (fun ev => upgrader_call ev = true)
    (run (env broken_pods) (@Upgrade longhorn "/etc/kubeconfig" "node-a") []).2 =
    map (completed namespace) (take 9 declared_order) ++
    [Ev (Upgrade_ v102to110_UpgradePods namespace)
        (Some (errorString "pod not ready"))].
Proof. by vm_compute. Qed.

Example broken_node_never_reaches_the_gate :
  run (env broken_node) (@Upgrade longhorn "/etc/kubeconfig" "node-a") [] =
    (Some (withMessage (errorString "cannot read node config")
             "upgrade local node failed"),
     [Ev (Getenv "POD_NAMESPACE") namespace;
      Ev (BuildConfigFromFlags "" "/etc/kubeconfig") None;
      Ev clientset_NewForConfig None;
      Ev lhclientset_NewForConfig None;
      Ev AddToScheme None;
      Ev v070to080_UpgradeLocalNode
         (Some (errorString "cannot read node config"))]).
Proof. by vm_compute. Qed.

Example two_runs_of_a_legacy_install :
  (fun st => st !! marker_key) <$>
    @campaign longhorn (initial (installed "longhorn.io/v1beta1"))
      [ {| kubeconfigPath := "/etc/kubeconfig"; currentNodeID := "node-a";
           behaviour := env (installed "longhorn.io/v1beta1") |};
        {| kubeconfigPath := "/etc/kubeconfig"; currentNodeID := "node-b";
           behaviour := env (installed "longhorn.io/v1beta2") |} ] =
  [Some "longhorn.io/v1beta1"; Some "longhorn.io/v1beta2";
   Some "longhorn.io/v1beta2"].
Proof. by vm_compute. Qed.

Lemma doAPIVersionUpgrade_unrecognized_witness :
  env (installed "longhorn.io/v1beta3") _
    (Settings_Get namespace "crd-api-version") [] =
    ({| Name := "crd-api-version"; Value := "longhorn.io/v1beta3" |}, None) /\
  "longhorn.io/v1beta3" <> "" /\
  "longhorn.io/v1beta3" <> "longhorn.io/v1beta1" /\
  "longhorn.io/v1beta3" <> "longhorn.io/v1beta2" /\
  run (env (installed "longhorn.io/v1beta3"))
    (@doAPIVersionUpgrade longhorn namespace) [] =
    (Some (withMessage
             (errorString "unrecognized CRD API version longhorn.io/v1beta3")
             "upgrade API version failed"),
     [Ev (Settings_Get namespace "crd-api-version")
         ({| Name := "crd-api-version"; Value := "longhorn.io/v1beta3" |}, None)]).
Proof.
  split; [reflexivity|]. split; [discriminate|]. split; [discriminate|].
  split; [discriminate|].
  apply (@doAPIVersionUpgrade_unrecognized longhorn
           (env (installed "longhorn.io/v1beta3")) [] namespace
           {| Name := "crd-api-version"; Value := "longhorn.io/v1beta3" |});
    [reflexivity|discriminate..].
Defined.

Lemma doAPIVersionUpgrade_current_witness :
  @CurrentCRDAPIVersion longhorn = @CRDAPIVersionV1beta2 longhorn /\
  env (installed "longhorn.io/v1beta2") _
    (Settings_Get namespace "crd-api-version") [] =
    ({| Name := "crd-api-version"; Value := "longhorn.io/v1beta2" |}, None) /\
  run (env (installed "longhorn.io/v1beta2"))
    (@doAPIVersionUpgrade longhorn namespace) [] =
    (None,
     [Ev (Settings_Get namespace "crd-api-version")
         ({| Name := "crd-api-version"; Value := "longhorn.io/v1beta2" |}, None);
      Ev (Log InfoLevel "No API version upgrade is needed") tt]).
Proof.
  split; [reflexivity|]. split; [reflexivity|].
  apply (@doAPIVersionUpgrade_current longhorn
           (env (installed "longhorn.io/v1beta2")) [] namespace
           {| Name := "crd-api-version"; Value := "longhorn.io/v1beta2" |});
    reflexivity.
Defined.

Lemma doAPIVersionUpgrade_fresh_install_witness :
  @CurrentCRDAPIVersion longhorn <> "" /\
  empty_or_absent
    (env fresh _ (Settings_Get namespace "crd-api-version") []) /\
  run (env fresh) (@doAPIVersionUpgrade longhorn namespace) [] =
    (None,
     [Ev (Settings_Get namespace "crd-api-version")
         ({| Name := ""; Value := "" |}, Some (NewNotFound "crd-api-version"));
      Ev (v1beta1_CanUpgrade namespace) (true, None);
      Ev (Settings_Create namespace
            {| Name := "crd-api-version"; Value := "longhorn.io/v1beta2" |})
         ({| Name := "crd-api-version"; Value := "longhorn.io/v1beta2" |}, None);
      Ev (Log InfoLevel "New longhorn.io/v1beta2 installation") tt]).
Proof.
  split; [discriminate|]. split; [reflexivity|].
  apply (proj1 (proj2
           (@doAPIVersionUpgrade_fresh_install longhorn (env fresh) [] namespace
              (env fresh _ (Settings_Get namespace "crd-api-version") [])
              ltac:(discriminate) eq_refl eq_refl)));
    reflexivity.
Defined.

Lemma doAPIVersionUpgrade_create_already_exists_witness :
  @CurrentCRDAPIVersion longhorn <> "" /\
  empty_or_absent
    (env raced _ (Settings_Get namespace "crd-api-version") []) /\
  run (env raced) (@doAPIVersionUpgrade longhorn namespace) [] =
    (None,
     [Ev (Settings_Get namespace "crd-api-version")
         ({| Name := ""; Value := "" |}, Some (NewNotFound "crd-api-version"));
      Ev (v1beta1_CanUpgrade namespace) (true, None);
      Ev (Settings_Create namespace
            {| Name := "crd-api-version"; Value := "longhorn.io/v1beta2" |})
         ({| Name := ""; Value := "" |},
          Some (NewAlreadyExists "crd-api-version"));
      Ev (Log InfoLevel "New longhorn.io/v1beta2 installation") tt]).
Proof.
  split; [discriminate|]. split; [reflexivity|].
  apply (@doAPIVersionUpgrade_create_already_exists longhorn (env raced) []
           namespace
           (env raced _ (Settings_Get namespace "crd-api-version") [])
           {| Name := ""; Value := "" |}
           (NewAlreadyExists "crd-api-version"));
    [discriminate|reflexivity..].
Defined.

Lemma doAPIVersionUpgrade_legacy_witness :
  @CurrentCRDAPIVersion longhorn = @CRDAPIVersionV1beta2 longhorn /\
  @CRDAPIVersionV1beta1 longhorn <> "" /\
  @CRDAPIVersionV1beta1 longhorn <> @CurrentCRDAPIVersion longhorn /\
  env (installed "longhorn.io/v1beta1") _
    (Settings_Get namespace "crd-api-version") [] =
    ({| Name := "crd-api-version"; Value := "longhorn.io/v1beta1" |}, None) /\
  run (env (installed "longhorn.io/v1beta1"))
    (@doAPIVersionUpgrade longhorn namespace) [] =
    (None,
     [Ev (Settings_Get namespace "crd-api-version")
         ({| Name := "crd-api-version"; Value := "longhorn.io/v1beta1" |}, None);
      Ev (Log InfoLevel
            "Upgrading from longhorn.io/v1beta1 to longhorn.io/v1beta2") tt;
      Ev (v1beta1_UpgradeCRFromV1beta1ToV1beta2 namespace) None;
      Ev (Settings_Update namespace
            {| Name := "crd-api-version"; Value := "longhorn.io/v1beta2" |})
         ({| Name := "crd-api-version"; Value := "longhorn.io/v1beta2" |}, None);
      Ev (Log InfoLevel "CRD has been upgraded to longhorn.io/v1beta2") tt]).
Proof.
  split; [reflexivity|]. split; [discriminate|]. split; [discriminate|].
  split; [reflexivity|].
  apply (@doAPIVersionUpgrade_legacy longhorn
           (env (installed "longhorn.io/v1beta1")) [] namespace
           {| Name := "crd-api-version"; Value := "longhorn.io/v1beta1" |});
    [reflexivity|discriminate|discriminate|reflexivity..].
Defined.

Lemma marker_never_reverts_witness :
  @CurrentCRDAPIVersion longhorn = @CRDAPIVersionV1beta2 longhorn /\
  forall si sj,
    @campaign longhorn ∅ two_runs !! 1 = Some si ->
    @campaign longhorn ∅ two_runs !! 2 = Some sj ->
    @rank longhorn (si !! marker_key) <= @rank longhorn (sj !! marker_key).
Proof.
  split; [reflexivity|]. intros si sj Hi Hj.
  exact (proj2 (proj2 (@marker_never_reverts longhorn eq_refl)
                  ∅ two_runs marker_key 1 2 si sj (le_S 1 1 (le_n 1)) Hi Hj)).
Defined.
End concrete.

Section concrete_sets.
Import csi.

Example cleanup_goes_on_after_a_failure :
  run (fun R c h =>
         match c in call R return R with
         | deploy _ _ _ _ _ => None
         | cleanup (Service _) _ _ _ => Some (errorString "timeout")
         | cleanup _ _ _ _ => None
         | Warnf _ => tt
         | schedule => true
         end)
      (AttacherDeployment.Cleanup
         {| AttacherDeployment.service :=
              {| Name := "csi-attacher"; Namespace := "longhorn-system" |};
            AttacherDeployment.deployment :=
              {| Name := "csi-attacher"; Namespace := "longhorn-system" |} |})
      [] =
    (tt,
     [Ev schedule true;
      Ev (cleanup
            (Service {| Name := "csi-attacher"; Namespace := "longhorn-system" |})
            "service" serviceDeleteFunc serviceGetFunc)
         (Some (errorString "timeout"));
      Ev schedule true;
      Ev (Warnf "Failed to cleanup service in attacher deployment: timeout") tt;
      Ev (cleanup
            (Deployment {| Name := "csi-attacher"; Namespace := "longhorn-system" |})
            "deployment" deploymentDeleteFunc deploymentGetFunc)
         None]).
Proof. by vm_compute. Qed.
End concrete_sets.

(** ** More on the coordinator *)

Section wp_more.
Context {E : Type -> Type}.

Lemma wp_any {A} (p : Prog E A) (Q : A -> list (Event E) -> Prop) :
  (forall a t, Q a t) -> wp p Q.
Proof.
  revert Q. induction p as [a|R c k IH]; intros Q HQ; cbn; [done|].
  intros r. apply IH. intros a t. apply HQ.
Qed.

(** Sequencing when only the returned value matters. *)
Lemma wp_bind_value {A B} (p : Prog E A) (f : A -> Prog E B)
    (R1 : A -> Prop) (R2 : B -> Prop) :
  wp p (fun a _ => R1 a) ->
  (forall a, R1 a -> wp (f a) (fun b _ => R2 b)) ->
  wp (bind p f) (fun b _ => R2 b).
Proof.
  intros Hp Hf. apply wp_bind. eapply wp_mono; [|apply Hp].
  intros a t1 Ha. eapply wp_mono; [|by apply Hf]. done.
Qed.

Lemma filter_none {A} (f : A -> bool) (l : list A) :
  Forall (fun x => f x = false) l -> filter (fun x => f x = true) l = [].
Proof.
  induction 1 as [|x l Hx _ IH]; [done|].
  rewrite filter_cons_False; [done|congruence].
Qed.

Lemma Forall_no_marked {A} (f : A -> bool) (l l1 l2 : list A) x :
  Forall (fun a => f a = false) l -> l = l1 ++ x :: l2 -> f x = true -> False.
Proof.
  intros Hl -> Hx. apply Forall_app in Hl as [_ Hl].
  inversion Hl; congruence.
Qed.
End wp_more.

(** Membership in a list written out. *)
Ltac in_list := repeat first [by left|right].

(** The value a program waits on to go on: the test of its first
    conditional. *)
Ltac head_test p :=
  lazymatch p with
  | bind ?q _ => head_test q
  | check ?e _ => e
  | (if ?b then _ else _) => b
  | match ?x with _ => _ end => x
  end.

(** Exploring every answer, and every test, of a program under [wp]. *)
Ltac wp_cases :=
  repeat (cbn;
          lazymatch goal with
          | |- forall _ : unit, _ => intros []
          | |- forall _ : bool, _ => intros []
          | |- forall _ : option _, _ => intros [?|]
          | |- forall _ : _ * _, _ => intros [? ?]
          | |- forall _ : list _, _ => intros ?
          | |- forall _ : string, _ => intros ?
          | |- wp ?p _ => let x := head_test p in destruct x eqn:?
          end).

Section api_version_more.
Import upgrade types cluster chain observe.
Context `{!types.consts}.
Implicit Types (env : Env call) (h t : list (Event call)) (st : settings).

(** X1. A read of the marker that fails with anything but "not found" ends
    the function: the error is returned under the context of the function
    and no other call is made. *)
Theorem doAPIVersionUpgrade_read_error env h namespace (s : Setting) e :
  env _ (Settings_Get namespace SettingNameCRDAPIVersion) h = (s, Some e) ->
  apierrors.IsNotFound e = false ->
  run env (doAPIVersionUpgrade namespace) h =
    (Some (withMessage e "upgrade API version failed"),
     [Ev (Settings_Get namespace SettingNameCRDAPIVersion) (s, Some e)]).
Proof.
  intros Hget He. unfold doAPIVersionUpgrade.
  rewrite run_defer_Wrap, run_bind, run_perform, Hget. cbn.
  rewrite He. cbn. by rewrite run_Ret.
Qed.

(** X2. Whatever the cluster answers, the calls of one run of
    [doAPIVersionUpgrade] that change the cluster are none, or one create
    of the marker, or one conversion, or one conversion followed by one
    update of the marker. *)
Theorem doAPIVersionUpgrade_mutations env h namespace :
  omap mutation (run env (doAPIVersionUpgrade namespace) h).2
    ∈ [ []; [Created]; [Converted]; [Converted; Updated] ].
Proof.
  apply (wp_run env (doAPIVersionUpgrade namespace)
           (fun _ t => omap mutation t
                         ∈ [ []; [Created]; [Converted]; [Converted; Updated] ])).
  unfold doAPIVersionUpgrade, defer_Wrap, logrus.Infof.
  wp_cases; cbn; in_list.
Qed.
End api_version_more.

Section entry_point_more.
Import upgrade types cluster chain observe.
Context `{!types.consts}.
Implicit Types (env : Env call) (h t : list (Event call)) (st : settings).

Lemma wrapped_with_one (l : list string) message res :
  message ∈ l -> wrapped_with [message] res -> wrapped_with l res.
Proof.
  intros Hl Hres e He. destruct (Hres e He) as (cause & m & -> & Hm).
  exists cause, m. split; [done|].
  by apply list_elem_of_singleton in Hm as ->.
Qed.

Lemma defer_Wrap_wrapped message (body : P (option error)) :
  wp (defer_Wrap message body) (fun res _ => wrapped_with [message] res).
Proof.
  unfold defer_Wrap. apply (wp_bind_value body _ (fun _ => True)).
  - by apply wp_any.
  - intros [e|] _; cbn; intros e' [= <-].
    exists e, message. split; [done|by left].
Qed.

(** Sequencing after a step whose value is not looked at. *)
Ltac skip_step :=
  lazymatch goal with
  | |- wp (bind ?p _) _ =>
      apply (wp_bind_value p _ (fun _ => True)); [by apply wp_any|intros ? _]
  end.

(** Sequencing after a function that wraps its errors: the error is
    returned, or the run goes on. *)
Ltac wrapped_step :=
  lazymatch goal with
  | |- wp (bind (defer_Wrap ?message ?body) _) _ =>
      apply (wp_bind_value (defer_Wrap message body) _
               (wrapped_with [message]));
      [apply defer_Wrap_wrapped|];
      let e := fresh "e" in
      let He := fresh "He" in
      intros [e|] He; cbn [check];
      [cbn; eapply wrapped_with_one; [|apply He]; in_list|]
  end.

Lemma phases_wrapped namespace :
  wp (phases namespace) (fun res _ => wrapped_with contexts res).
Proof.
  unfold phases, doAPIVersionUpgrade, doCRUpgrade, doPodsUpgrade,
    doServicesUpgrade, doDeploymentAndDaemonSetUpgrade.
  do 5 wrapped_step. by intros e [=].
Qed.

Lemma upgrade_wrapped currentNodeID namespace :
  wp (upgrade currentNodeID namespace) (fun res _ => wrapped_with contexts res).
Proof.
  unfold upgrade, RunOrDie.
  cbn [OnStartedLeading OnStoppedLeading OnNewLeader Callbacks Lock
       ReleaseOnCancel LeaseDuration RenewDeadline RetryPeriod].
  apply (wp_bind_value _ _ (wrapped_with contexts)); [|intros res Hres].
  - skip_step. skip_step.
    apply (wp_bind_value _ _ (wrapped_with contexts)); [|intros res Hres].
    + skip_step.
      apply (wp_bind_value _ _ (wrapped_with contexts)); [|intros res Hres].
      * apply phases_wrapped.
      * skip_step. skip_step. done.
    + skip_step. done.
  - skip_step. done.
Qed.

(** X3. Every error [Upgrade] returns is an error wrapped with one of ten
    messages: those of the four bootstrap steps, of the local-node step and
    of the five phases.  No error of a callee reaches the caller bare. *)
Theorem Upgrade_errors_are_wrapped env h kubeconfigPath currentNodeID :
  wrapped_with contexts (run env (Upgrade kubeconfigPath currentNodeID) h).1.
Proof.
  apply (wp_run env (Upgrade kubeconfigPath currentNodeID)
           (fun res _ => wrapped_with contexts res)).
  unfold Upgrade, upgradeLocalNode.
  skip_step. skip_step.
  do 4 (skip_step;
        match goal with
        | |- wp (if is_error ?err then _ else _) _ =>
            destruct err as [?e|]; cbn [is_error];
            [cbn; intros ? [= <-]; eexists _, _; split; [done|in_list]|]
        end).
  wrapped_step.
  apply (wp_bind_value _ _ (wrapped_with contexts));
    [apply upgrade_wrapped|intros [e'|] He'; cbn [check]; cbn; [done|]].
  by intros e [=].
Qed.

(** X4. The namespace is read once from the environment.  When the
    variable is empty [Upgrade] logs one warning and works in the default
    namespace; otherwise it logs no warning and works in the namespace
    read.  The lease and every call of every phase are made in that one
    namespace. *)
Theorem Upgrade_namespace env h kubeconfigPath currentNodeID :
  let v := env _ (Getenv EnvPodNamespace) h in
  let namespace := if bool_decide (v = "") then NamespaceDefault else v in
  let t := (run env (Upgrade kubeconfigPath currentNodeID) h).2 in
  Forall (fun ev => forall n, namespace_of ev = Some n -> n = namespace) t /\
  filter (fun ev => warns ev = true) t =
    if bool_decide (v = "")
    then [Ev (Log WarnLevel
                ("Cannot detect pod namespace, environment variable "
                 +:+ EnvPodNamespace
                 +:+ " is missing, using default namespace")) tt]
    else [].
Proof.
  cbv zeta.
  destruct (run env (Upgrade kubeconfigPath currentNodeID) h) as [res t] eqn:Hrun.
  unfold Upgrade, upgradeLocalNode, upgrade.upgrade, RunOrDie, phases,
    doAPIVersionUpgrade, doCRUpgrade, doPodsUpgrade, doServicesUpgrade,
    doDeploymentAndDaemonSetUpgrade in Hrun.
  cbn [OnStartedLeading OnStoppedLeading OnNewLeader Callbacks Lock
       ReleaseOnCancel LeaseDuration RenewDeadline RetryPeriod] in Hrun.
  apply run_bind_inv in Hrun as (v & t1 & t2 & Hv & Hrun & ->).
  rewrite run_perform in Hv. injection Hv as Hv <-. rewrite Hv.
  apply run_bind_inv in Hrun as (namespace & t3 & t4 & Hns & Hrun & ->).
  cbn [snd app].
  match type of Hrun with
  | run ?e ?p ?hh = _ =>
      assert (Forall (fun ev => forall n, namespace_of ev = Some n -> n = namespace)
                (run e p hh).2) as Hsame
        by (apply always_run; repeat always_step; by intros ? [= <-]);
      assert (Forall (fun ev => warns ev = false) (run e p hh).2) as Hquiet
        by (apply always_run; repeat always_step; done);
      rewrite Hrun in Hsame, Hquiet; cbn [snd] in Hsame, Hquiet
  end.
  case_bool_decide as Hempty; run_inv Hns; cbn [app].
  - split.
    + constructor; [done|]. by constructor.
    + rewrite filter_cons_False by done. rewrite filter_cons_True by done.
      match goal with u : unit |- _ => destruct u end.
      f_equal. by apply filter_none.
  - split.
    + by constructor.
    + rewrite filter_cons_False by done. by apply filter_none.
Qed.
End entry_point_more.

Section bootstrap.
Import upgrade types cluster chain observe.
Context `{!types.consts}.
Implicit Types (env : Env call) (h t : list (Event call)) (st : settings).

Lemma upgrade_no_bootstrap_failure currentNodeID namespace :
  always (fun ev => bootstrap_failed ev = false) (upgrade currentNodeID namespace).
Proof.
  unfold upgrade, RunOrDie, phases, doAPIVersionUpgrade, doCRUpgrade,
    doPodsUpgrade, doServicesUpgrade, doDeploymentAndDaemonSetUpgrade.
  cbn [OnStartedLeading OnStoppedLeading OnNewLeader Callbacks Lock
       ReleaseOnCancel LeaseDuration RenewDeadline RetryPeriod].
  repeat always_step; done.
Qed.

(** X5. A bootstrap step of [Upgrade] that fails (reading the client
    configuration, building either client, building the scheme) is the
    last call of the run: its error is returned wrapped with the message
    of that step, and neither the local-node step nor the lease nor any
    phase is reached. *)
Theorem Upgrade_bootstrap_failure env h kubeconfigPath currentNodeID
    t1 ev t2 e message :
  (run env (Upgrade kubeconfigPath currentNodeID) h).2 = t1 ++ ev :: t2 ->
  bootstrap_failure ev = Some (e, message) ->
  (run env (Upgrade kubeconfigPath currentNodeID) h).1 =
    Some (withMessage e message) /\
  t2 = [] /\
  Forall (fun ev => gate_or_phase ev = false /\ local_node_call ev = false)
    (t1 ++ [ev]).
Proof.
  intros Ht Hev.
  assert (bootstrap_failed ev = true) as Hfailed
    by (unfold bootstrap_failed; by rewrite Hev).
  destruct (run env (Upgrade kubeconfigPath currentNodeID) h) as [res t] eqn:Hrun.
  cbn [fst snd] in *.
  unfold Upgrade, upgradeLocalNode in Hrun.
  run_inv Hrun; cbn [app errors.Wrap] in Ht.
  all: try solve
    [ exfalso; eapply (Forall_no_marked bootstrap_failed); [|exact Ht|exact Hfailed];
      repeat (apply Forall_cons; split; [done|]);
      rewrite ?app_nil_r;
      first
        [ by apply Forall_nil
        | match goal with
          | Hup : run ?e (upgrade ?i ?n) ?hh = (_, ?x) |- Forall _ ?x =>
              replace x with (run e (upgrade i n) hh).2 by (by rewrite Hup);
              apply always_run, upgrade_no_bootstrap_failure
          end ] ].
  all: match type of Ht with
       | ?l = _ =>
           let i := init_of l in
           let x := last_of l in
           change l with (i ++ x :: []) in Ht;
           destruct (elem_after_prefix bootstrap_failed i x [] t1 ev t2
                       ltac:(by repeat constructor) Hfailed Ht)
             as [(-> & -> & ->)|(m & _ & Hm)]; [|by destruct m]
       end.
  all: cbn in Hev; injection Hev as <- <-.
  all: split; [done|split; [done|by repeat constructor]].
Qed.
End bootstrap.

(** One step of a run in the model cluster, with the answer computed. *)
Ltac cluster_step :=
  first [ rewrite run_bind | rewrite run_perform | rewrite run_Ret ];
  cbn [fst snd app check is_error andb negb from_option
       cluster.env cluster.fault cluster.no_fault cluster.initial
       cluster.upgradable cluster.settings_after cluster.apply foldl
       upgrade.Name upgrade.Value errors.Wrap errors.Wrapf
       apierrors.IsNotFound apierrors.IsAlreadyExists apierrors.ReasonForError
       cluster.NewNotFound cluster.NewAlreadyExists].

Section idempotence.
Import upgrade types cluster chain observe.
Context `{!types.consts}.
Implicit Types (env : Env call) (h t : list (Event call)) (st : settings).

Lemma faultless_run pod observed can st namespace :
  CurrentCRDAPIVersion = CRDAPIVersionV1beta2 ->
  CRDAPIVersionV1beta1 <> "" ->
  CRDAPIVersionV1beta1 <> CurrentCRDAPIVersion ->
  CurrentCRDAPIVersion <> "" ->
  let t := (run (faultless pod observed can st)
              (doAPIVersionUpgrade namespace) []).2 in
  let key := (namespace, SettingNameCRDAPIVersion) in
  (st !! key = Some CurrentCRDAPIVersion ->
   settings_after st t = st /\ Forall converts_nothing t) /\
  ((settings_after st t = st /\ Forall converts_nothing t) \/
   settings_after st t !! key = Some CurrentCRDAPIVersion).
Proof.
  intros Hcur Hne Hlegacy Hcurne. cbv zeta.
  unfold doAPIVersionUpgrade, faultless.
  rewrite run_defer_Wrap, run_bind, run_perform. cbn [fst snd].
  cbn [cluster.env fault no_fault initial settings_after foldl].
  destruct (st !! (namespace, SettingNameCRDAPIVersion)) as [v|] eqn:Hst;
    cbn [is_error andb negb from_option Value Name fst snd].
  - destruct (decide (v = CurrentCRDAPIVersion)) as [->|Hv].
    { rewrite <-Hcur.
      rewrite (bool_decide_false (CurrentCRDAPIVersion <> CurrentCRDAPIVersion))
        by (by intros []).
      rewrite andb_false_r.
      rewrite (bool_decide_true (CurrentCRDAPIVersion = CurrentCRDAPIVersion)) by done.
      unfold logrus.Infof. repeat cluster_step.
      split; [intros _|left]; (split; [done|by repeat constructor]). }
    split; [by intros [= ->]|].
    destruct (decide (v = "")) as [->|Hempty].
    { rewrite (bool_decide_false (EmptyString <> EmptyString)) by (by intros []).
      cbn [andb].
      rewrite (bool_decide_false (EmptyString = CurrentCRDAPIVersion)) by done.
      rewrite (bool_decide_true (EmptyString = EmptyString)) by done.
      unfold logrus.Infof. repeat cluster_step.
      destruct can; repeat cluster_step; rewrite ?Hst; repeat cluster_step.
      all: left; split; [done|by repeat constructor]. }
    destruct (decide (v = CRDAPIVersionV1beta1)) as [->|Hv1].
    { rewrite (bool_decide_false (CRDAPIVersionV1beta1 <> CRDAPIVersionV1beta1))
        by (by intros []).
      rewrite andb_false_r; cbn [andb].
      rewrite (bool_decide_false (CRDAPIVersionV1beta1 = CurrentCRDAPIVersion)) by done.
      rewrite (bool_decide_false (CRDAPIVersionV1beta1 = EmptyString)) by done.
      rewrite (bool_decide_true (CRDAPIVersionV1beta1 = CRDAPIVersionV1beta1)) by done.
      unfold logrus.Infof. repeat cluster_step.
      rewrite ?Hst; repeat cluster_step.
      right. rewrite Hcur. apply lookup_insert_eq. }
    rewrite !bool_decide_true by congruence. cbn [andb].
    repeat cluster_step. left. split; [done|by repeat constructor].
  - split; [done|].
    cbn [apierrors.IsNotFound apierrors.ReasonForError cluster.NewNotFound negb].
    rewrite (bool_decide_false (EmptyString <> EmptyString)) by (by intros []).
    cbn [andb].
    rewrite (bool_decide_false (EmptyString = CurrentCRDAPIVersion)) by done.
    rewrite (bool_decide_true (EmptyString = EmptyString)) by done.
    unfold logrus.Infof. repeat cluster_step.
    destruct can; repeat cluster_step; rewrite ?Hst; repeat cluster_step.
    + right. apply lookup_insert_eq.
    + left. split; [done|by repeat constructor].
Qed.

(** X7. In a cluster without faults, a second run of
    [doAPIVersionUpgrade] right after a first one leaves the Settings as
    the first run left them, and it neither converts custom resources nor
    updates the marker. *)
Theorem doAPIVersionUpgrade_second_run pod observed can st namespace :
  CurrentCRDAPIVersion = CRDAPIVersionV1beta2 ->
  CRDAPIVersionV1beta1 <> "" ->
  CRDAPIVersionV1beta1 <> CurrentCRDAPIVersion ->
  CurrentCRDAPIVersion <> "" ->
  let st1 :=
    settings_after st
      (run (faultless pod observed can st) (doAPIVersionUpgrade namespace) []).2 in
  let t2 :=
    (run (faultless pod observed can st1) (doAPIVersionUpgrade namespace) []).2 in
  settings_after st1 t2 = st1 /\ Forall converts_nothing t2.
Proof.
  intros Hcur Hne Hlegacy Hcurne. cbv zeta.
  destruct (faultless_run pod observed can st namespace Hcur Hne Hlegacy Hcurne)
    as [_ [[Heq Hquiet]|Hmarker]].
  - by rewrite Heq.
  - by apply (faultless_run pod observed can _ namespace Hcur Hne Hlegacy Hcurne).
Qed.
End idempotence.

(** ** More on the managed-object sets *)

Section object_sets_more.
Import csi reports.
Implicit Types (env : Env call) (h t : list (Event call)).

(** X10. In every run of [Cleanup] of the attacher set and of the
    provisioner set, under every schedule of the two tasks, a warning is
    logged only after the cleanup it reports has failed; the same holds
    for the plugin set. *)
Theorem Cleanup_warnings_follow env h :
  (forall a : AttacherDeployment.t,
     warnings_follow "attacher" []
       (run env (AttacherDeployment.Cleanup a) h).2) /\
  (forall p : ProvisionerDeployment.t,
     warnings_follow "provisioner" []
       (run env (ProvisionerDeployment.Cleanup p) h).2) /\
  (forall p : PluginDeployment.t,
     warnings_follow "plugin" []
       (run env (PluginDeployment.Cleanup p) h).2).
Proof.
  split; [|split]; intros x.
  all: match goal with
       | |- warnings_follow ?set [] (run _ ?p _).2 =>
           apply (wp_run env p (fun _ t => warnings_follow set [] t) h)
       end.
  - unfold AttacherDeployment.Cleanup, Wait, RunAsync, warn_on_error.
    wp_explore; cbn; repeat split; in_list.
  - unfold ProvisionerDeployment.Cleanup, Wait, RunAsync, warn_on_error.
    wp_explore; cbn; repeat split; in_list.
  - unfold PluginDeployment.Cleanup, warn_on_error.
    wp_explore; cbn; repeat split; in_list.
Qed.
End object_sets_more.

(** ** The plugin daemon set *)

Section plugin_daemon_set.
Import plugin.
Context `{!helpers}.
Implicit Types (namespace serviceAccount nodeDriverRegistrarImage
                  managerImage managerURL rootDir : string)
               (tolerations : list Toleration).

(** X11. The pod of the plugin daemon set declares each volume once, every
    mount of a container names a declared volume, and every declared
    volume is mounted by some container. *)
Theorem NewPluginDeployment_volumes namespace serviceAccount
    nodeDriverRegistrarImage managerImage managerURL rootDir tolerations :
  let spec :=
    Template_Spec (daemonSet (NewPluginDeployment namespace serviceAccount
      nodeDriverRegistrarImage managerImage managerURL rootDir tolerations)) in
  NoDup (Volume_Name <$> Volumes spec) /\
  Forall (fun m => VolumeMount_Name m.2 ∈ Volume_Name <$> Volumes spec)
    (mounts spec) /\
  Forall (fun v => Volume_Name v ∈ (fun m => VolumeMount_Name m.2) <$> mounts spec)
    (Volumes spec).
Proof.
  cbn. split; [|split].
  - apply (bool_decide_unpack _). by vm_compute.
  - repeat (constructor; [cbn; in_list|]). constructor.
  - repeat (constructor; [cbn; in_list|]). constructor.
Qed.

(** X12. The selector of the plugin daemon set selects the pods of its own
    template: the labels are equal, and the one label, "app", carries the
    name of the daemon set; the daemon set lives in the namespace given,
    and is the object that [Deploy] and [Cleanup] of the set hand on. *)
Theorem NewPluginDeployment_selector namespace serviceAccount
    nodeDriverRegistrarImage managerImage managerURL rootDir tolerations env h :
  let p := NewPluginDeployment namespace serviceAccount
             nodeDriverRegistrarImage managerImage managerURL rootDir
             tolerations in
  let ds := daemonSet p in
  Selector_MatchLabels ds = Template_Labels ds /\
  Template_Labels ds = {[ "app" := csi.Name (ObjectMeta ds) ]} /\
  csi.Namespace (ObjectMeta ds) = namespace /\
  csi.cleaned (run env (csi.PluginDeployment.Cleanup (object p)) h).2 =
    [csi.DaemonSet {| csi.Name := CSIPluginName; csi.Namespace := namespace |}].
Proof.
  cbv zeta. repeat split.
  apply (wp_run env _ (fun _ t => csi.cleaned t = _) h).
  unfold csi.PluginDeployment.Cleanup, csi.warn_on_error.
  by wp_explore.
Qed.

(** X13. Both containers of the plugin pod run privileged, so the mounts
    with bidirectional propagation, the plugins directory and the pods
    directory in the container "longhorn-csi-plugin", are in a privileged
    container; those two mounts are writable. *)
Theorem NewPluginDeployment_privileged namespace serviceAccount
    nodeDriverRegistrarImage managerImage managerURL rootDir tolerations :
  let spec :=
    Template_Spec (daemonSet (NewPluginDeployment namespace serviceAccount
      nodeDriverRegistrarImage managerImage managerURL rootDir tolerations)) in
  Forall (fun c => privileged c = true) (Containers spec) /\
  (fun m => (m.1, VolumeMount_Name m.2)) <$>
    filter (fun m => bidirectional m.2 = true) (mounts spec) =
    [("longhorn-csi-plugin", "plugin-dir");
     ("longhorn-csi-plugin", "pods-mount-dir")] /\
  Forall (fun m => bidirectional m.2 = true -> ReadOnly m.2 = false)
    (mounts spec).
Proof.
  cbn. split; [|split].
  - by repeat constructor.
  - done.
  - by repeat constructor.
Qed.

(** X14. For every root directory: a volume that two containers mount, they
    mount at the same path; and the pods directory, [/dev], [/sys] and
    [/lib/modules] are mounted in the container at the path they have on
    the host. *)
Theorem NewPluginDeployment_paths namespace serviceAccount
    nodeDriverRegistrarImage managerImage managerURL rootDir tolerations :
  let spec :=
    Template_Spec (daemonSet (NewPluginDeployment namespace serviceAccount
      nodeDriverRegistrarImage managerImage managerURL rootDir tolerations)) in
  Forall (fun m1 =>
    Forall (fun m2 => VolumeMount_Name m1.2 = VolumeMount_Name m2.2 ->
                      MountPath m1.2 = MountPath m2.2) (mounts spec))
    (mounts spec) /\
  Forall (fun m =>
    VolumeMount_Name m.2 ∈ ["pods-mount-dir"; "host-dev"; "host-sys"; "lib-modules"] ->
    host_path spec (VolumeMount_Name m.2) = Some (MountPath m.2))
    (mounts spec).
Proof.
  cbn. split.
  - repeat (constructor; [by repeat constructor|]). constructor.
  - repeat (constructor;
            [intros Hin;
             first [ reflexivity
                   | exfalso; revert Hin;
                     apply (bool_decide_eq_false_1 _); by vm_compute ]|]).
    constructor.
Qed.
End plugin_daemon_set.

(** ** More concrete runs *)

Section concrete_more.
Import upgrade types cluster chain observe.

Lemma doAPIVersionUpgrade_read_error_witness :
  env unreachable _ (Settings_Get namespace "crd-api-version") [] =
    ({| Name := ""; Value := "" |}, Some (errorString "connection refused")) /\
  apierrors.IsNotFound (errorString "connection refused") = false /\
  run (env unreachable) (@doAPIVersionUpgrade longhorn namespace) [] =
    (Some (withMessage (errorString "connection refused")
             "upgrade API version failed"),
     [Ev (Settings_Get namespace "crd-api-version")
         ({| Name := ""; Value := "" |},
          Some (errorString "connection refused"))]).
Proof.
  split; [reflexivity|]. split; [reflexivity|].
  apply (@doAPIVersionUpgrade_read_error longhorn (env unreachable) []
           namespace {| Name := ""; Value := "" |}
           (errorString "connection refused"));
    reflexivity.
Defined.

Lemma Upgrade_bootstrap_failure_witness :
  let returned :=
    run (env no_client) (@Upgrade longhorn "/etc/kubeconfig" "node-a") [] in
  let t1 := [Ev (Getenv "POD_NAMESPACE") namespace;
             Ev (BuildConfigFromFlags "" "/etc/kubeconfig") None] in
  let ev := Ev clientset_NewForConfig
              (Some (errorString "invalid configuration")) in
  returned.2 = t1 ++ ev :: [] /\
  bootstrap_failure ev =
    Some (errorString "invalid configuration", "unable to get k8s client") /\
  returned.1 = Some (withMessage (errorString "invalid configuration")
                       "unable to get k8s client") /\
  [] = @nil (Event call) /\
  Forall (fun ev => gate_or_phase ev = false /\ local_node_call ev = false)
    (t1 ++ [ev]).
Proof.
  cbv zeta. split; [by vm_compute|]. split; [reflexivity|].
  apply (@Upgrade_bootstrap_failure longhorn (env no_client) []
           "/etc/kubeconfig" "node-a"
           [Ev (Getenv "POD_NAMESPACE") namespace;
            Ev (BuildConfigFromFlags "" "/etc/kubeconfig") None]
           (Ev clientset_NewForConfig
              (Some (errorString "invalid configuration")))
           []
           (errorString "invalid configuration") "unable to get k8s client");
    [by vm_compute|reflexivity].
Defined.

Lemma doAPIVersionUpgrade_second_run_witness :
  @CurrentCRDAPIVersion longhorn = @CRDAPIVersionV1beta2 longhorn /\
  @CRDAPIVersionV1beta1 longhorn <> "" /\
  @CRDAPIVersionV1beta1 longhorn <> @CurrentCRDAPIVersion longhorn /\
  @CurrentCRDAPIVersion longhorn <> "" /\
  let st := {[ marker_key := "longhorn.io/v1beta1" ]} in
  let st1 :=
    settings_after st
      (run (faultless namespace [] true st)
         (@doAPIVersionUpgrade longhorn namespace) []).2 in
  let t2 :=
    (run (faultless namespace [] true st1)
       (@doAPIVersionUpgrade longhorn namespace) []).2 in
  settings_after st1 t2 = st1 /\ Forall converts_nothing t2.
Proof.
  split; [reflexivity|]. split; [discriminate|]. split; [discriminate|].
  split; [discriminate|].
  apply (@doAPIVersionUpgrade_second_run longhorn namespace [] true
           {[ marker_key := "longhorn.io/v1beta1" ]} namespace);
    [reflexivity|discriminate..].
Defined.

End concrete_more.
